(** * Wiki Runner: shallow embedding of the navigation loop and its solvers

    Sources embedded here:
    - [src/types.ts]: the data model ([WikiPage], [GameStep], [GameStatus],
      [AIResponse], [SolverType]);
    - the vector solver (local sentence-embedding similarity) of
      [src/unnamed/part_001]: [getNextMove], with its link filter and the
      scoring loop;
    - the response handling of the three remote solvers (Gemini and Claude
      in [src/unnamed/part_001], OpenAI in [src/services/openaiService.ts]);
    - the orchestrator of [src/App.tsx]: [executeMove], the scheduling
      effect, the pause toggle, [handleStartGame] and [resetGame], as an
      interleaving of asynchronous continuations.

    Strings are JavaScript strings whose UTF-16 code units are below 256
    (the Latin-1 block); a Rocq [ascii] is one such code unit. *)

From Stdlib Require Import String Ascii List Bool Arith Lia ZArith QArith.
Import ListNotations.

Local Open Scope nat_scope.
Local Open Scope string_scope.
Local Open Scope list_scope.

Set Warnings "-register-all".

Infix "+++" := String.append (at level 60, right associativity).

(** ** JavaScript runtime fragments *)

(** Completion of an asynchronous or throwing computation: a value, or an
    exception carrying its message. *)
Inductive outcome (A : Type) : Type :=
| Ok (a : A)
| Throw (msg : string).
Arguments Ok {A} a.
Arguments Throw {A} msg.

(** The double-quote character (code unit 34). *)
Definition dq : string := String (ascii_of_nat 34) EmptyString.

(** [String.prototype.toLowerCase] on Latin-1 code units: A-Z and
    U+00C0..U+00DE except U+00D7 map 32 code points up. *)
Definition js_lower_char (c : ascii) : ascii :=
  let n := nat_of_ascii c in
  if (Nat.leb 65 n && Nat.leb n 90)
     || (Nat.leb 192 n && Nat.leb n 222 && negb (Nat.eqb n 215))
  then ascii_of_nat (n + 32) else c.

Fixpoint toLowerCase (s : string) : string :=
  match s with
  | EmptyString => EmptyString
  | String c s' => String (js_lower_char c) (toLowerCase s')
  end.

(** White space of [String.prototype.trim] and of the regular-expression
    class [\s] in Latin-1: TAB, LF, VT, FF, CR, SPACE, NBSP. *)
Definition is_js_space (c : ascii) : bool :=
  let n := nat_of_ascii c in
  (Nat.leb 9 n && Nat.leb n 13) || Nat.eqb n 32 || Nat.eqb n 160.

Fixpoint trim_start (l : list ascii) : list ascii :=
  match l with
  | [] => []
  | c :: l' => if is_js_space c then trim_start l' else l
  end.

(** [String.prototype.trim]. *)
Definition trim (s : string) : string :=
  string_of_list_ascii
    (rev (trim_start (rev (trim_start (list_ascii_of_string s))))).

(** [s.replace(/ /g, '_')]. *)
Fixpoint replace_spaces (s : string) : string :=
  match s with
  | EmptyString => EmptyString
  | String c s' =>
      String (if Ascii.eqb c " "%char then "_"%char else c) (replace_spaces s')
  end.

(** [Array.prototype.includes] / [Set.prototype.has] on strings. *)
Definition str_mem (x : string) (l : list string) : bool :=
  existsb (String.eqb x) l.

(** JavaScript values, as far as [JSON.parse] can produce them, plus
    [undefined].  Numbers are kept as integers: only their truthiness is
    observed by the code embedded here. *)
Inductive jsval : Type :=
| JUndef
| JNull
| JBool (b : bool)
| JNum (z : Z)
| JStr (s : string)
| JArr (l : list jsval)
| JObj (fields : list (string * jsval)).

(** JavaScript truthiness. *)
Definition truthy (v : jsval) : bool :=
  match v with
  | JUndef | JNull => false
  | JBool b => b
  | JNum z => negb (Z.eqb z 0)
  | JStr s => negb (String.eqb s EmptyString)
  | JArr _ | JObj _ => true
  end.

(** [a || b]. *)
Definition js_or (a b : jsval) : jsval := if truthy a then a else b.

(** Last binding of a key in an object literal ([JSON.parse] keeps the
    last duplicate). *)
Fixpoint assoc_last (k : string) (fs : list (string * jsval)) : option jsval :=
  match fs with
  | [] => None
  | (k', v) :: fs' =>
      match assoc_last k fs' with
      | Some w => Some w
      | None => if String.eqb k k' then Some v else None
      end
  end.

(** Property read [v.k] for a data property [k] that no built-in prototype
    defines; [None] is the [TypeError] raised on [null] and [undefined]. *)
Definition get_prop (v : jsval) (k : string) : option jsval :=
  match v with
  | JUndef | JNull => None
  | JObj fs => Some (match assoc_last k fs with Some w => w | None => JUndef end)
  | _ => Some JUndef
  end.

(** ** Data model ([src/types.ts]) *)

Inductive SolverType := GEMINI | VECTORS | OPENAI | CLAUDE.

Record WikiPage := mkWikiPage {
  title : string;
  summary : string;
  links : list string;
  extract : string
}.

Record AIResponse := mkAIResponse {
  reasoning : jsval;
  selectedLink : jsval
}.

Record GameStep := mkGameStep {
  pageTitle : string;
  thought : jsval;
  timestamp : Z;
  duration : Z;
  solver : SolverType
}.

Inductive GameStatus :=
| IDLE | STARTING | PLAYING | PAUSED | SUCCESS | FAILED | LOADING_STEP.

Definition GameStatus_eqb (a b : GameStatus) : bool :=
  match a, b with
  | IDLE, IDLE | STARTING, STARTING | PLAYING, PLAYING | PAUSED, PAUSED
  | SUCCESS, SUCCESS | FAILED, FAILED | LOADING_STEP, LOADING_STEP => true
  | _, _ => false
  end.

(** [currentPage.links[0]]. *)
Definition first_link (ls : list string) : jsval :=
  match ls with
  | l :: _ => JStr l
  | [] => JUndef
  end.

(** ** The vector solver ([getNextMove] of the vector service) *)

(** Numbers met by the scoring loop: a real value, or [NaN].  Rounding is
    not modelled; [NaN] propagates through [+] and [*], and [>] is false
    as soon as one side is [NaN]. *)
Inductive num := Num (q : Q) | NaN.

Definition num_add (a b : num) : num :=
  match a, b with Num x, Num y => Num (x + y)%Q | _, _ => NaN end.

Definition num_mul (a b : num) : num :=
  match a, b with Num x, Num y => Num (x * y)%Q | _, _ => NaN end.

Definition Qlt_bool (x y : Q) : bool := negb (Qle_bool y x).

(** [dot > maxScore], where [maxScore] only ever holds a number. *)
Definition num_gt (a : num) (m : Q) : bool :=
  match a with Num x => Qlt_bool m x | NaN => false end.

(** [arr[k]] on a numeric array: out of range reads [undefined], which
    turns any arithmetic on it into [NaN]. *)
Definition js_index (l : list num) (k : nat) : num :=
  match nth_error l k with Some v => v | None => NaN end.

(** The feature-extraction pipeline once loaded: [model(text)] gives the
    pooled, normalised vector of one text; [model(texts)] gives the batch
    tensor as [(dims[1], data)], the flat row-major data. *)
Record Extractor := mkExtractor {
  embed_one : string -> list num;
  embed_batch : list string -> nat * list num
}.

(** [Array.from(new Set(links))]: first occurrences, in order. *)
Fixpoint dedup_from (seen : list string) (l : list string) : list string :=
  match l with
  | [] => []
  | x :: l' =>
      if str_mem x seen then dedup_from seen l'
      else x :: dedup_from (x :: seen) l'
  end.

Definition dedup (l : list string) : list string := dedup_from [] l.

(** Step "1. Filter links" of [getNextMove]: the candidates after the
    200-element truncation, and [isBacktracking]. *)
Definition filter_links (currentPage : WikiPage) (history : list string)
  : list string * bool :=
  let normalizedHistory :=
    map toLowerCase history ++ [toLowerCase (title currentPage)] in
  let allUniqueLinks := dedup (links currentPage) in
  let candidates :=
    filter (fun l => negb (str_mem (toLowerCase l) normalizedHistory))
      allUniqueLinks in
  let '(candidates, isBacktracking) :=
    match candidates with
    | [] =>
        (filter (fun l => negb (String.eqb (toLowerCase l)
                                  (toLowerCase (title currentPage))))
           allUniqueLinks, true)
    | _ => (candidates, false)
    end in
  (firstn 200 candidates, isBacktracking).

(** The inner loop: [dot] for candidate [i] of the batch. *)
Definition dot_at (targetVec : list num) (hiddenSize : nat) (data : list num)
  (i : nat) : num :=
  fold_left
    (fun dot j =>
       num_add dot (num_mul (js_index targetVec j)
                      (js_index data (i * hiddenSize + j))))
    (seq 0 hiddenSize) (Num 0).

(** The outer loop from index [i] on, with the running [maxScore] and
    [bestLink]. *)
Fixpoint select_loop (score : nat -> num) (i : nat) (cands : list string)
  (maxScore : Q) (bestLink : string) : Q * string :=
  match cands with
  | [] => (maxScore, bestLink)
  | c :: cands' =>
      if num_gt (score i) maxScore
      then select_loop score (S i) cands' (match score i with Num x => x | NaN => maxScore end) c
      else select_loop score (S i) cands' maxScore bestLink
  end.

(** [let maxScore = -2; let bestLink = candidates[0]; for (...) ...];
    [None] only for an empty list, which the solver never passes. *)
Definition select_best (cands : list string) (score : nat -> num)
  : option (Q * string) :=
  match cands with
  | [] => None
  | c0 :: _ => Some (select_loop score 0 cands (-2)%Q c0)
  end.

(** Observable work of one call: loading the model, and each call of the
    model on a text or a batch of texts. *)
Inductive VEvent := VLoadModel | VEmbed (texts : list string).

Section VectorSolver.

(** [Number.prototype.toFixed(3)]. *)
Variable toFixed3 : Q -> string.

(** [getNextMove] from [await loadModel()] on, once the direct-match test
    has not returned.  [load] is the completion of [loadModel()]: an
    exception, [null], or the pipeline. *)
Definition vector_rank (load : outcome (option Extractor))
  (currentPage : WikiPage) (targetPage : string) (history : list string)
  : list VEvent * outcome AIResponse :=
  match load with
  | Throw e => ([VLoadModel], Throw e)
  | Ok None => ([VLoadModel], Throw "Model not loaded")
  | Ok (Some model) =>
      let '(candidates, isBacktracking) := filter_links currentPage history in
      match candidates with
      | [] =>
          ([VLoadModel],
           Ok (mkAIResponse (JStr "No valid links found.")
                 (js_or (first_link (links currentPage)) (JStr "Main_Page"))))
      | c0 :: _ =>
          let targetVec := embed_one model targetPage in
          let '(hiddenSize, data) := embed_batch model candidates in
          let '(maxScore, bestLink) :=
            select_loop (dot_at targetVec hiddenSize data) 0 candidates (-2)%Q c0 in
          let reasoningText :=
            "BERT Similarity Score: " +++ toFixed3 maxScore +++ ". "
            +++ dq +++ bestLink +++ dq +++ " is semantically closest to "
            +++ dq +++ targetPage +++ dq +++ "." in
          let reasoningText :=
            if isBacktracking
            then reasoningText
                 +++ " (Note: All unique links were previously visited; forced to loop)."
            else reasoningText +++ " (Visited pages excluded to prevent loops)." in
          ([VLoadModel; VEmbed [targetPage]; VEmbed candidates],
           Ok (mkAIResponse (JStr reasoningText) (JStr bestLink)))
      end
  end.

(** [currentPage.links.find(l => l.toLowerCase() === targetLower)]. *)
Definition find_directLink (ls : list string) (targetPage : string) : option string :=
  let targetLower := toLowerCase targetPage in
  find (fun l => String.eqb (toLowerCase l) targetLower) ls.

(** [getNextMove(currentPage, targetPage, history)] of the vector service. *)
Definition vector_getNextMove (load : outcome (option Extractor))
  (currentPage : WikiPage) (targetPage : string) (history : list string)
  : list VEvent * outcome AIResponse :=
  match find_directLink (links currentPage) targetPage with
  | Some d =>
      if truthy (JStr d) then
        ([], Ok (mkAIResponse
                   (JStr ("Target identified! " +++ dq +++ d +++ dq
                          +++ " is a direct match for the goal."))
                   (JStr d)))
      else vector_rank load currentPage targetPage history
  | None => vector_rank load currentPage targetPage history
  end.

End VectorSolver.

(** ** Response handling of the remote solvers

    Each remote [getNextMove] builds a prompt, awaits the provider's reply
    and then runs a [try { ... } catch { ... }] over the reply.  The
    functions below embed that [try]/[catch] part, from the reply on. *)

(** The regular-expression search of the Claude solver works on code
    units. *)
Fixpoint find_index (c : ascii) (i : nat) (l : list ascii) : option nat :=
  match l with
  | [] => None
  | d :: l' => if Ascii.eqb c d then Some i else find_index c (S i) l'
  end.

Fixpoint find_last_index (c : ascii) (i : nat) (l : list ascii) : option nat :=
  match l with
  | [] => None
  | d :: l' =>
      match find_last_index c (S i) l' with
      | Some k => Some k
      | None => if Ascii.eqb c d then Some i else None
      end
  end.

Fixpoint is_prefix (p l : list ascii) : bool :=
  match p, l with
  | [], _ => true
  | c :: p', d :: l' => Ascii.eqb c d && is_prefix p' l'
  | _ :: _, [] => false
  end.

(** [s.replace(new RegExp(pat + '\\s*', 'g'), '')]: every occurrence of
    [pat], left to right, removed with the white space that follows it.
    [fuel] bounds the number of scanned positions. *)
Fixpoint strip_with_spaces (fuel : nat) (pat l : list ascii) : list ascii :=
  match fuel with
  | 0 => l
  | S fuel' =>
      match l with
      | [] => []
      | c :: l' =>
          if is_prefix pat l
          then strip_with_spaces fuel' pat (trim_start (skipn (length pat) l))
          else c :: strip_with_spaces fuel' pat l'
      end
  end.

Definition backticks : list ascii := list_ascii_of_string "```".

(** [content.match(/\{[\s\S]*\}/)]: from the first opening brace to the
    last closing brace after it, if any. *)
Definition match_braces (l : list ascii) : option (list ascii) :=
  match find_index "{"%char 0 l, find_last_index "}"%char 0 l with
  | Some i, Some k => if Nat.ltb i k then Some (firstn (k - i + 1) (skipn i l)) else None
  | _, _ => None
  end.

(** The cleaning of the Claude reply text before [JSON.parse]. *)
Definition claude_clean (text : string) : string :=
  let l := list_ascii_of_string text in
  let l := strip_with_spaces (length l) (backticks ++ list_ascii_of_string "json") l in
  let l := strip_with_spaces (length l) backticks l in
  let content := trim (string_of_list_ascii l) in
  match match_braces (list_ascii_of_string content) with
  | Some m => string_of_list_ascii m
  | None => content
  end.

(** [s || '{}'] on a string or [undefined]/[null]. *)
Definition or_empty_object (s : option string) : string :=
  match s with
  | Some t => if String.eqb t EmptyString then "{}" else t
  | None => "{}"
  end.

(** The value returned by every [catch] branch. *)
Definition parse_fallback (ls : list string) : AIResponse :=
  mkAIResponse (JStr "Failed to parse AI response. Picking first link.")
    (first_link ls).

(** The common tail of every [try]: [data = JSON.parse(...)] (where [None]
    is a thrown [SyntaxError]) and the two property reads, which throw on
    [null]; both exceptions land in the [catch]. *)
Definition from_parsed (ls : list string) (parsed : option jsval) : AIResponse :=
  match parsed with
  | None => parse_fallback ls
  | Some data =>
      match get_prop data "reasoning", get_prop data "selectedLink" with
      | Some r, Some l =>
          mkAIResponse (js_or r (JStr "No reasoning provided."))
            (js_or l (first_link ls))
      | _, _ => parse_fallback ls
      end
  end.

Section RemoteSolvers.

(** [JSON.parse]; [None] when it throws. *)
Variable JSON_parse : string -> option jsval.

(** Gemini: the reply's [response.text] ([None] for [undefined]). *)
Definition gemini_handle (currentPage : WikiPage) (text : option string)
  : outcome AIResponse :=
  Ok (from_parsed (links currentPage) (JSON_parse (or_empty_object text))).

(** OpenAI: [completion.choices], each given by its [message.content]
    ([None] for [null]).  Reading [choices[0].message] of an empty list
    throws inside the [try]. *)
Definition openai_handle (currentPage : WikiPage) (choices : list (option string))
  : outcome AIResponse :=
  match choices with
  | [] => Ok (parse_fallback (links currentPage))
  | content :: _ =>
      Ok (from_parsed (links currentPage) (JSON_parse (or_empty_object content)))
  end.

(** Claude: [message.content], each block given by its [text] field
    ([None] for a block without text).  An empty [content] makes
    [message.content[0].text] throw in the [try], and again in the
    [console.error] of the [catch], which lets that second [TypeError]
    escape. *)
Definition claude_handle (currentPage : WikiPage) (content : list (option string))
  : outcome AIResponse :=
  match content with
  | [] => Throw "TypeError: Cannot read properties of undefined (reading 'text')"
  | None :: _ => Ok (parse_fallback (links currentPage))
  | Some text :: _ =>
      Ok (from_parsed (links currentPage)
            (JSON_parse (or_empty_object (Some (claude_clean text)))))
  end.

End RemoteSolvers.

(** ** The orchestrator ([App] in [src/App.tsx]) *)

(** [normalizeTitle]: [title.trim().replace(/ /g, '_').toLowerCase()]. *)
Definition normalizeTitle (t : string) : string :=
  toLowerCase (replace_spaces (trim t)).

(** [useState(40)], never updated. *)
Definition maxSteps : nat := 40.

(** What the [executeMove] callback captured from the render that
    scheduled it. *)
Record Closure := mkClosure {
  cl_page : WikiPage;
  cl_target : string;
  cl_solver : SolverType
}.

(** The destination fetch awaited, by the branch of [executeMove] it is in:
    the target branch (line 300), the paused branch (line 310), or the
    ordinary one (line 316). *)
Inductive FetchKind := FinalFetch | PausedFetch | NextFetch.

(** The [await] an asynchronous task is suspended at. *)
Inductive Task :=
| MoveAwaitSolver (cl : Closure) (startTime : Z)
| MoveAwaitDelay (cl : Closure) (move : AIResponse)
| MoveAwaitFetch (cl : Closure) (kind : FetchKind) (link : string)
| StartAwaitFetch.

(** The component state, plus the suspended tasks (most recent first) and
    a counter naming them.  [statusRef.current] is kept equal to [status]
    by its effect, which runs before any [await] of a task resumes, so the
    test of line 308 reads [status]. *)
Record App := mkApp {
  startPage : string;
  targetPage : string;
  solver_sel : SolverType;
  currentWikiPage : option WikiPage;
  history : list GameStep;
  status : GameStatus;
  error : option string;
  highlightedLink : option jsval;
  tasks : list (nat * Task);
  next_id : nat
}.

(** Record updates. *)
Definition with_status (st : GameStatus) (s : App) : App :=
  mkApp (startPage s) (targetPage s) (solver_sel s) (currentWikiPage s)
    (history s) st (error s) (highlightedLink s) (tasks s) (next_id s).

Definition with_error (e : option string) (s : App) : App :=
  mkApp (startPage s) (targetPage s) (solver_sel s) (currentWikiPage s)
    (history s) (status s) e (highlightedLink s) (tasks s) (next_id s).

Definition with_history (h : list GameStep) (s : App) : App :=
  mkApp (startPage s) (targetPage s) (solver_sel s) (currentWikiPage s)
    h (status s) (error s) (highlightedLink s) (tasks s) (next_id s).

Definition with_page (p : option WikiPage) (s : App) : App :=
  mkApp (startPage s) (targetPage s) (solver_sel s) p
    (history s) (status s) (error s) (highlightedLink s) (tasks s) (next_id s).

Definition with_highlight (h : option jsval) (s : App) : App :=
  mkApp (startPage s) (targetPage s) (solver_sel s) (currentWikiPage s)
    (history s) (status s) (error s) h (tasks s) (next_id s).

Definition with_tasks (ts : list (nat * Task)) (s : App) : App :=
  mkApp (startPage s) (targetPage s) (solver_sel s) (currentWikiPage s)
    (history s) (status s) (error s) (highlightedLink s) ts (next_id s).

(** Suspend a new task. *)
Definition spawn (t : Task) (s : App) : App :=
  mkApp (startPage s) (targetPage s) (solver_sel s) (currentWikiPage s)
    (history s) (status s) (error s) (highlightedLink s)
    ((next_id s, t) :: tasks s) (S (next_id s)).

Fixpoint lookup_task (id : nat) (ts : list (nat * Task)) : option Task :=
  match ts with
  | [] => None
  | (j, t) :: ts' => if Nat.eqb id j then Some t else lookup_task id ts'
  end.

Fixpoint set_task (id : nat) (t : Task) (ts : list (nat * Task)) : list (nat * Task) :=
  match ts with
  | [] => []
  | (j, u) :: ts' => if Nat.eqb id j then (j, t) :: ts' else (j, u) :: set_task id t ts'
  end.

Fixpoint drop_task (id : nat) (ts : list (nat * Task)) : list (nat * Task) :=
  match ts with
  | [] => []
  | (j, u) :: ts' => if Nat.eqb id j then ts' else (j, u) :: drop_task id ts'
  end.

Definition resume (id : nat) (t : Task) (s : App) : App :=
  with_tasks (set_task id t (tasks s)) s.

Definition finish (id : nat) (s : App) : App :=
  with_tasks (drop_task id (tasks s)) s.

(** The [catch] of [executeMove]. *)
Definition move_catch (id : nat) (msg : string) (s : App) : App :=
  finish id (with_status FAILED (with_error (Some ("Solver Error: " +++ msg)) s)).

(** Scheduler events: a timer, a reply or a click that resumes the
    program. *)
Inductive Event :=
| ETick (now : Z)
| ESolverReturns (id : nat) (r : outcome AIResponse) (endTime now : Z)
| EDelayElapsed (id : nat)
| EFetchReturns (id : nat) (r : outcome WikiPage)
| ETogglePause
| EHidden
| EStartClicked
| EReset.

(** The synchronous prefix of [executeMove], run by the 100 ms timer of the
    scheduling effect (armed while [status] is [PLAYING]), on the state of
    the render that armed it. *)
Definition executeMove_start (now : Z) (s : App) : App :=
  match currentWikiPage s with
  | None => s
  | Some p =>
      if String.eqb (normalizeTitle (title p)) (normalizeTitle (targetPage s))
      then with_status SUCCESS s
      else if Nat.leb maxSteps (length (history s))
      then with_error (Some "Maximum attempts reached without finding the target.")
             (with_status FAILED s)
      else spawn (MoveAwaitSolver (mkClosure p (targetPage s) (solver_sel s)) now)
             (with_status LOADING_STEP s)
  end.

(** One scheduler step; [None] when the event cannot happen in [s]. *)
Definition step (s : App) (e : Event) : option App :=
  match e with
  | ETick now =>
      if GameStatus_eqb (status s) PLAYING then Some (executeMove_start now s) else None
  | ESolverReturns id r endTime now =>
      match lookup_task id (tasks s) with
      | Some (MoveAwaitSolver cl startTime) =>
          match r with
          | Throw m => Some (move_catch id m s)
          | Ok move =>
              let newStep := mkGameStep (title (cl_page cl)) (reasoning move) now
                               (endTime - startTime)%Z (cl_solver cl) in
              Some (resume id (MoveAwaitDelay cl move)
                      (with_history (history s ++ [newStep])
                         (with_highlight (Some (selectedLink move)) s)))
          end
      | _ => None
      end
  | EDelayElapsed id =>
      match lookup_task id (tasks s) with
      | Some (MoveAwaitDelay cl move) =>
          match selectedLink move with
          | JStr l =>
              if String.eqb (normalizeTitle l) (normalizeTitle (cl_target cl))
              then Some (resume id (MoveAwaitFetch cl FinalFetch l) s)
              else if GameStatus_eqb (status s) PAUSED
              then Some (resume id (MoveAwaitFetch cl PausedFetch l) s)
              else Some (resume id (MoveAwaitFetch cl NextFetch l) s)
          | _ => Some (move_catch id "Cannot read properties of a non-string (reading 'trim')" s)
          end
      | _ => None
      end
  | EFetchReturns id r =>
      match lookup_task id (tasks s) with
      | Some (MoveAwaitFetch _ kind _) =>
          match r with
          | Throw m => Some (move_catch id m s)
          | Ok page =>
              let s' := finish id (with_highlight None (with_page (Some page) s)) in
              match kind with
              | FinalFetch => Some (with_status SUCCESS s')
              | PausedFetch => Some s'
              | NextFetch => Some (with_status PLAYING s')
              end
          end
      | Some StartAwaitFetch =>
          match r with
          | Throw m =>
              Some (finish id (with_status IDLE
                                 (with_error (Some ("Failed to start: " +++ m)) s)))
          | Ok page => Some (finish id (with_status PLAYING (with_page (Some page) s)))
          end
      | _ => None
      end
  | ETogglePause =>
      if GameStatus_eqb (status s) IDLE then None
      else Some (with_status (if GameStatus_eqb (status s) PAUSED then PLAYING else PAUSED) s)
  | EHidden =>
      if GameStatus_eqb (status s) PLAYING then Some (with_status PAUSED s) else Some s
  | EStartClicked =>
      if GameStatus_eqb (status s) IDLE
      then Some (spawn StartAwaitFetch
                   (with_highlight None (with_history []
                      (with_error None (with_status STARTING s)))))
      else None
  | EReset =>
      Some (with_highlight None (with_error None (with_page None
              (with_history [] (with_status IDLE s)))))
  end.

Fixpoint run (s : App) (es : list Event) : option App :=
  match es with
  | [] => Some s
  | e :: es' => match step s e with Some s' => run s' es' | None => None end
  end.

(** The state of a fresh page load. *)
Definition app_init : App :=
  mkApp "Apollo 11" "Cheese" GEMINI None [] IDLE None None [] 0.

(** ** Page fetching ([fetchPageData] of the wiki service) *)

(** [l] contains [p] at some position. *)
Fixpoint occurs (p l : list ascii) : bool :=
  is_prefix p l || match l with [] => false | _ :: l' => occurs p l' end.

(** [s.replace(/pat/g, rep)] for a pattern without metacharacters: matches
    are found left to right without overlap, and the inserted text is not
    searched again.  [skip] counts the characters of the last match still
    to be passed over. *)
Fixpoint replace_from (pat rep : list ascii) (skip : nat) (l : list ascii) : list ascii :=
  match l with
  | [] => []
  | c :: l' =>
      match skip with
      | S k => replace_from pat rep k l'
      | 0 =>
          if is_prefix pat l
          then rep ++ replace_from pat rep (length pat - 1) l'
          else c :: replace_from pat rep 0 l'
      end
  end.

Definition js_replace_all (pat rep : string) (s : string) : string :=
  string_of_list_ascii
    (replace_from (list_ascii_of_string pat) (list_ascii_of_string rep) 0
       (list_ascii_of_string s)).

(** The three rewrites of the page HTML, in order. *)
Definition rewrite_html (htmlContent : string) : string :=
  let htmlContent :=
    js_replace_all ("src=" +++ dq +++ "//") ("src=" +++ dq +++ "https://") htmlContent in
  let htmlContent :=
    js_replace_all ("href=" +++ dq +++ "/") ("href=" +++ dq +++ "https://en.wikipedia.org/")
      htmlContent in
  js_replace_all ("src=" +++ dq +++ "/w/extensions")
    ("src=" +++ dq +++ "https://en.wikipedia.org/w/extensions") htmlContent.

(** ** The model loader ([loadModel] of the vector service)

    The module variables [extractor] and [isLoading], and the calls of
    [loadModel] suspended at an [await]: in the polling loop (the 100 ms
    timer), or on [pipeline(...)]. *)

Inductive LoadCall :=
| LCWaiting
| LCLoading
| LCReturned (r : outcome (option Extractor)).

Record Loader := mkLoader {
  extractor : option Extractor;
  isLoading : bool;
  calls : list (nat * LoadCall);
  next_call : nat
}.

Definition loader_init : Loader := mkLoader None false [] 0.

Inductive LoaderEvent :=
| LCall
| LTimer (id : nat)
| LPipelineReturns (id : nat) (r : outcome Extractor).

Fixpoint lookup_call (id : nat) (cs : list (nat * LoadCall)) : option LoadCall :=
  match cs with
  | [] => None
  | (j, c) :: cs' => if Nat.eqb id j then Some c else lookup_call id cs'
  end.

Fixpoint set_call (id : nat) (c : LoadCall) (cs : list (nat * LoadCall))
  : list (nat * LoadCall) :=
  match cs with
  | [] => []
  | (j, d) :: cs' => if Nat.eqb id j then (j, c) :: cs' else (j, d) :: set_call id c cs'
  end.

(** A new call of [loadModel], run up to its first [await] or its
    [return]. *)
Definition add_call (c : LoadCall) (ld : Loader) (loading : bool) : Loader :=
  mkLoader (extractor ld) loading ((next_call ld, c) :: calls ld) (S (next_call ld)).

Definition loader_step (ld : Loader) (e : LoaderEvent) : option Loader :=
  match e with
  | LCall =>
      match extractor ld with
      | Some m => Some (add_call (LCReturned (Ok (Some m))) ld (isLoading ld))
      | None =>
          if isLoading ld then Some (add_call LCWaiting ld true)
          else Some (add_call LCLoading ld true)
      end
  | LTimer id =>
      match lookup_call id (calls ld) with
      | Some LCWaiting =>
          if isLoading ld then Some ld
          else Some (mkLoader (extractor ld) (isLoading ld)
                       (set_call id (LCReturned (Ok (extractor ld))) (calls ld))
                       (next_call ld))
      | _ => None
      end
  | LPipelineReturns id r =>
      match lookup_call id (calls ld) with
      | Some LCLoading =>
          match r with
          | Ok m =>
              Some (mkLoader (Some m) false
                      (set_call id (LCReturned (Ok (Some m))) (calls ld)) (next_call ld))
          | Throw msg =>
              Some (mkLoader (extractor ld) false
                      (set_call id (LCReturned (Throw msg)) (calls ld)) (next_call ld))
          end
      | _ => None
      end
  end.

Fixpoint loader_run (ld : Loader) (es : list LoaderEvent) : option Loader :=
  match es with
  | [] => Some ld
  | e :: es' => match loader_step ld e with Some ld' => loader_run ld' es' | None => None end
  end.

(** Calls suspended on [pipeline(...)]. *)
Definition count_loading (cs : list (nat * LoadCall)) : nat :=
  length (filter (fun jc => match snd jc with LCLoading => true | _ => false end) cs).

(** ** Auxiliary notions of the proofs *)

Definition trim_list (l : list ascii) : list ascii := rev (trim_start (rev (trim_start l))).

(** Both ends of a trimmed list are free of white space. *)
Definition clean (l : list ascii) : Prop :=
  trim_start l = l /\ trim_start (rev l) = rev l.

(** Every event except start and reset keeps the history as a prefix. *)
Definition keeps_history (e : Event) : bool :=
  match e with EStartClicked | EReset => false | _ => true end.

(** Calls of [loadModel] suspended on [pipeline(...)], one by one. *)
Definition loading_call (c : LoadCall) : nat := match c with LCLoading => 1 | _ => 0 end.

(** [isLoading] is set exactly while one call awaits the pipeline, and
    never once the model is loaded. *)
Definition loader_inv (ld : Loader) : Prop :=
  count_loading (calls ld) = (if isLoading ld then 1 else 0)
  /\ (extractor ld <> None -> isLoading ld = false).

(** [p] and [s] differ at a position both reach. *)
Fixpoint clash (p s : list ascii) : bool :=
  match p, s with
  | c :: p', d :: s' => negb (Ascii.eqb c d) || clash p' s'
  | _, _ => false
  end.

(** [f] holds of every non-empty suffix of [s]. *)
Fixpoint suffixes_ok (f : list ascii -> bool) (s : list ascii) : bool :=
  match s with
  | [] => true
  | _ :: s' => f s && suffixes_ok f s'
  end.


(** ** Test inputs *)

Definition page_of (t : string) (ls : list string) : WikiPage :=
  mkWikiPage t EmptyString ls EmptyString.

(** An extractor whose numbers are all [NaN]. *)
Definition nan_extractor : Extractor :=
  mkExtractor (fun _ => [NaN; NaN]) (fun texts => (2, map (fun _ => NaN) (texts ++ texts))).

(** An extractor of two-dimensional vectors: the target is (1, 0) and the
    k-th text of a batch is (1 / (k + 1), 0). *)
Definition toy_extractor : Extractor :=
  mkExtractor (fun _ => [Num 1; Num 0])
    (fun texts =>
       (2, flat_map (fun k => [Num (1 # Pos.of_succ_nat k); Num 0])
             (seq 0 (length texts)))).

Definition fixed3_stub (_ : Q) : string := "0.000".

(** ** Theorems *)

(** Scenario B of the spec: no fallback, order kept. *)
Example filter_links_scenario_B :
  filter_links (page_of "A" ["B"; "C"]) [] = (["B"; "C"], false).
Proof. reflexivity. Qed.

(** Scenario C of the spec: every link visited, fallback. *)
Example filter_links_scenario_C :
  filter_links (page_of "A" ["B"]) ["B"] = (["B"], true).
Proof. reflexivity. Qed.

Example toLowerCase_latin1 :
  toLowerCase (String (ascii_of_nat 201) "X") = String (ascii_of_nat 233) "x".
Proof. reflexivity. Qed.

Example normalizeTitle_example :
  normalizeTitle (String (ascii_of_nat 9) " Apollo 11 ") = "apollo_11".
Proof. reflexivity. Qed.

Example vector_scores_first_best :
  snd (vector_getNextMove fixed3_stub (Ok (Some toy_extractor))
         (page_of "A" ["B"; "C"; "D"]) "Z" [])
  = Ok (mkAIResponse
          (JStr ("BERT Similarity Score: 0.000. " +++ dq +++ "B" +++ dq
                 +++ " is semantically closest to " +++ dq +++ "Z" +++ dq
                 +++ ". (Visited pages excluded to prevent loops)."))
          (JStr "B")).
Proof. reflexivity. Qed.

Lemma str_mem_In (x : string) (l : list string) : str_mem x l = true <-> In x l.
Proof.
  unfold str_mem. rewrite existsb_exists. split.
  - intros [y [Hy Heq]]. apply String.eqb_eq in Heq. subst. exact Hy.
  - intros H. exists x. split; [exact H | apply String.eqb_refl].
Qed.

Lemma in_firstn {A : Type} (n : nat) (l : list A) (x : A) :
  In x (firstn n l) -> In x l.
Proof.
  intros H. rewrite <- (firstn_skipn n l). apply in_or_app. left. exact H.
Qed.

(** C3 (amended).  When [isBacktracking] is false, no candidate of the
    vector solver's filter has a [toLowerCase] form equal to that of a
    history entry or of the current page title.  The comparison is
    [toLowerCase] alone: no trimming, and spaces and underscores stay
    distinct. *)
Theorem filter_links_no_lowercase_visited :
  forall (currentPage : WikiPage) (history : list string) (l : string),
    snd (filter_links currentPage history) = false ->
    In l (fst (filter_links currentPage history)) ->
    ~ In (toLowerCase l)
        (map toLowerCase history ++ [toLowerCase (title currentPage)]).
Proof.
  intros p h l Hback Hin.
  unfold filter_links in *.
  set (visited := map toLowerCase h ++ [toLowerCase (title p)]) in *.
  set (kept := filter (fun l0 => negb (str_mem (toLowerCase l0) visited))
                 (dedup (links p))) in *.
  destruct kept as [| c kept'] eqn:Hkept; cbv beta iota zeta in Hback, Hin.
  - discriminate Hback.
  - apply in_firstn in Hin.
    assert (Hk : In l kept) by (rewrite Hkept; exact Hin).
    unfold kept in Hk. apply filter_In in Hk as [_ Hneg].
    apply negb_true_iff in Hneg.
    intros Hv. apply str_mem_In in Hv. congruence.
Qed.

Lemma filter_links_no_lowercase_visited_witness :
  snd (filter_links (page_of "A" ["B"; "a"; "C"]) ["b"]) = false
  /\ In "C" (fst (filter_links (page_of "A" ["B"; "a"; "C"]) ["b"]))
  /\ ~ In (toLowerCase "C")
        (map toLowerCase ["b"] ++ [toLowerCase (title (page_of "A" ["B"; "a"; "C"]))]).
Proof.
  split; [reflexivity | split; [simpl; left; reflexivity |]].
  apply filter_links_no_lowercase_visited; [reflexivity | simpl; left; reflexivity].
Defined.

(** C3 counterexample: with [Foo Bar] in the history, the link [Foo_Bar]
    is kept without fallback, although the two titles have one canonical
    form (trimmed, case-folded, spaces and underscores identified). *)
Lemma filter_links_keeps_canonical_duplicate :
  filter_links (page_of "A" ["Foo_Bar"]) ["Foo Bar"] = (["Foo_Bar"], false)
  /\ normalizeTitle "Foo_Bar" = normalizeTitle "Foo Bar".
Proof. split; reflexivity. Qed.

(** C2 (amended).  When no link of the page matches the target and the
    model is loaded, an empty candidate list (for instance a page without
    links) raises no error: the solver returns [links[0] || "Main_Page"]
    with the reasoning "No valid links found." and computes no
    embedding. *)
Theorem vector_no_candidates_returns_default :
  forall (toFixed3 : Q -> string) (model : Extractor) (currentPage : WikiPage)
         (targetPage : string) (history : list string),
    find_directLink (links currentPage) targetPage = None ->
    fst (filter_links currentPage history) = [] ->
    vector_getNextMove toFixed3 (Ok (Some model)) currentPage targetPage history
    = ([VLoadModel],
       Ok (mkAIResponse (JStr "No valid links found.")
             (js_or (first_link (links currentPage)) (JStr "Main_Page")))).
Proof.
  intros toFixed3 model p t h Hfind Hempty.
  unfold vector_getNextMove. rewrite Hfind. unfold vector_rank.
  destruct (filter_links p h) as [cands back]. simpl in Hempty. subst cands.
  reflexivity.
Qed.

Lemma vector_no_candidates_returns_default_witness :
  find_directLink (links (page_of "A" [])) "Z" = None
  /\ fst (filter_links (page_of "A" []) []) = []
  /\ vector_getNextMove fixed3_stub (Ok (Some toy_extractor)) (page_of "A" []) "Z" []
     = ([VLoadModel],
        Ok (mkAIResponse (JStr "No valid links found.")
              (js_or (first_link (links (page_of "A" []))) (JStr "Main_Page")))).
Proof.
  split; [reflexivity | split; [reflexivity |]].
  apply vector_no_candidates_returns_default; reflexivity.
Defined.

(** C2 counterexample: a page with no links makes the vector solver answer
    [Main_Page] instead of signalling an error. *)
Lemma vector_no_links_answers_main_page :
  vector_getNextMove fixed3_stub (Ok (Some toy_extractor)) (page_of "A" []) "Z" []
  = ([VLoadModel],
     Ok (mkAIResponse (JStr "No valid links found.") (JStr "Main_Page"))).
Proof. reflexivity. Qed.

(** C5 (amended).  When the first link of the page (in the page's own
    order, before any filtering) whose [toLowerCase] form equals that of
    the target is a non-empty string, the vector solver returns it at once,
    with the reasoning [Target identified! "<link>" is a direct match for
    the goal.], without loading the model or embedding anything. *)
Theorem vector_direct_link_short_circuit :
  forall (toFixed3 : Q -> string) (load : outcome (option Extractor))
         (currentPage : WikiPage) (targetPage : string) (history : list string)
         (d : string),
    find_directLink (links currentPage) targetPage = Some d ->
    String.eqb d EmptyString = false ->
    vector_getNextMove toFixed3 load currentPage targetPage history
    = ([], Ok (mkAIResponse
                 (JStr ("Target identified! " +++ dq +++ d +++ dq
                        +++ " is a direct match for the goal."))
                 (JStr d))).
Proof.
  intros toFixed3 load p t h d Hfind Hne.
  unfold vector_getNextMove. rewrite Hfind. simpl. rewrite Hne. reflexivity.
Qed.

Lemma vector_direct_link_short_circuit_witness :
  find_directLink (links (page_of "A" ["B"; "Cheese"])) "cheese" = Some "Cheese"
  /\ String.eqb "Cheese" EmptyString = false
  /\ vector_getNextMove fixed3_stub (Throw "offline") (page_of "A" ["B"; "Cheese"])
       "cheese" []
     = ([], Ok (mkAIResponse
                  (JStr ("Target identified! " +++ dq +++ "Cheese" +++ dq
                         +++ " is a direct match for the goal."))
                  (JStr "Cheese"))).
Proof.
  split; [reflexivity | split; [reflexivity |]].
  apply vector_direct_link_short_circuit; reflexivity.
Defined.

(** C5 counterexample: the link [Foo Bar] has the canonical form of the
    target [Foo_Bar], yet the solver loads the model and embeds the target
    and the candidates. *)
Lemma vector_canonical_match_not_short_circuited :
  normalizeTitle "Foo Bar" = normalizeTitle "Foo_Bar"
  /\ fst (vector_getNextMove fixed3_stub (Ok (Some toy_extractor))
            (page_of "A" ["Foo Bar"]) "Foo_Bar" [])
     = [VLoadModel; VEmbed ["Foo_Bar"]; VEmbed ["Foo Bar"]].
Proof. split; reflexivity. Qed.

(** Every score of the first [n] candidates is a number in [[-1, 1]], as a
    cosine similarity is. *)
Definition scores_in_unit_range (n : nat) (score : nat -> num) : bool :=
  forallb (fun i => match score i with
                    | Num q => Qle_bool (-1) q && Qle_bool q 1
                    | NaN => false
                    end) (seq 0 n).

Lemma scores_in_unit_range_spec (n : nat) (score : nat -> num) :
  scores_in_unit_range n score = true ->
  forall i, i < n -> exists q, score i = Num q /\ (-1 <= q)%Q /\ (q <= 1)%Q.
Proof.
  unfold scores_in_unit_range. intros H i Hi.
  rewrite forallb_forall in H.
  specialize (H i ltac:(apply in_seq; lia)).
  destruct (score i) as [q |]; [| discriminate H].
  apply andb_prop in H as [H1 H2].
  apply Qle_bool_iff in H1, H2. eauto.
Qed.

(** Loop invariant of the scoring loop: after the indices below [k], the
    running best is at an index [i] whose score is the running maximum,
    not smaller than any score seen and strictly above every score before
    [i]. *)
Lemma select_loop_first_max (cands : list string) (f : nat -> num) :
  forall rest k m b i,
    (forall n, nth_error cands (k + n) = nth_error rest n) ->
    k + length rest = length cands ->
    i < k ->
    nth_error cands i = Some b ->
    f i = Num m ->
    (forall j q, j < k -> f j = Num q -> (q <= m)%Q) ->
    (forall j q, j < i -> f j = Num q -> (q < m)%Q) ->
    exists i',
      nth_error cands i' = Some (snd (select_loop f k rest m b))
      /\ f i' = Num (fst (select_loop f k rest m b))
      /\ (forall j q, j < length cands -> f j = Num q ->
                      (q <= fst (select_loop f k rest m b))%Q)
      /\ (forall j q, j < i' -> f j = Num q ->
                      (q < fst (select_loop f k rest m b))%Q).
Proof.
  induction rest as [| c rest IH]; intros k m b i Hnth Hlen Hik Hb Hfi Hle Hlt.
  - simpl in *. exists i. rewrite Nat.add_0_r in Hlen. subst k. auto.
  - assert (Hc : nth_error cands k = Some c)
      by (rewrite <- (Nat.add_0_r k), Hnth; reflexivity).
    assert (Hnth' : forall n, nth_error cands (S k + n) = nth_error rest n)
      by (intros n; replace (S k + n) with (k + S n) by lia; rewrite Hnth; reflexivity).
    assert (Hlen' : S k + length rest = length cands) by (simpl in Hlen; lia).
    simpl select_loop. unfold num_gt, Qlt_bool.
    destruct (f k) as [x |] eqn:Hfk.
    + destruct (Qle_bool x m) eqn:E; simpl.
      * apply Qle_bool_iff in E.
        apply (IH (S k) m b i); auto; try lia.
        intros j q Hj Hq. destruct (Nat.eq_dec j k) as [-> | Hne].
        -- rewrite Hfk in Hq. injection Hq as <-. exact E.
        -- apply (Hle j); auto; lia.
      * assert (Hmx : (m < x)%Q).
        { apply Qnot_le_lt. intros Hxm. apply Qle_bool_iff in Hxm. congruence. }
        apply (IH (S k) x c k); auto; try lia.
        -- intros j q Hj Hq. destruct (Nat.eq_dec j k) as [-> | Hne].
           ++ rewrite Hfk in Hq. injection Hq as <-. apply Qle_refl.
           ++ apply Qlt_le_weak. apply Qle_lt_trans with m; [apply (Hle j); auto; lia | exact Hmx].
        -- intros j q Hj Hq. apply Qle_lt_trans with m; [apply (Hle j); auto | exact Hmx].
    + simpl. apply (IH (S k) m b i); auto; try lia.
      intros j q Hj Hq. destruct (Nat.eq_dec j k) as [-> | Hne].
      * congruence.
      * apply (Hle j); auto; lia.
Qed.

(** C6.  With every score a cosine similarity (a number in [[-1, 1]]), the
    scoring loop returns the candidate of greatest score, and among
    candidates sharing that score the first one: its score is not below
    any score and strictly above the score of every earlier candidate. *)
Theorem select_best_first_maximum :
  forall (cands : list string) (score : nat -> num),
    0 < length cands ->
    scores_in_unit_range (length cands) score = true ->
    exists i m b,
      select_best cands score = Some (m, b)
      /\ nth_error cands i = Some b
      /\ score i = Num m
      /\ (forall j q, j < length cands -> score j = Num q -> (q <= m)%Q)
      /\ (forall j q, j < i -> score j = Num q -> (q < m)%Q).
Proof.
  intros cands f Hne Hrange.
  pose proof (scores_in_unit_range_spec _ _ Hrange) as Hsc.
  destruct cands as [| c0 rest]; [simpl in Hne; lia |].
  destruct (Hsc 0 ltac:(simpl; lia)) as [q0 [Hf0 [Hq0 _]]].
  assert (Hstart : select_best (c0 :: rest) f = Some (select_loop f 1 rest q0 c0)).
  { unfold select_best. simpl. unfold num_gt, Qlt_bool. rewrite Hf0.
    assert (Hgt : Qle_bool q0 (-2) = false).
    { destruct (Qle_bool q0 (-2)) eqn:E; [| reflexivity].
      apply Qle_bool_iff in E.
      exfalso. apply (Qlt_irrefl (-2)%Q).
      apply Qlt_le_trans with (-1)%Q; [reflexivity |].
      apply Qle_trans with q0; assumption. }
    rewrite Hgt. reflexivity. }
  destruct (select_loop_first_max (c0 :: rest) f rest 1 q0 c0 0)
    as [i' [Hb [Hm [Hle Hlt]]]]; auto.
  - intros j q Hj Hq. assert (j = 0) as -> by lia.
    rewrite Hf0 in Hq. injection Hq as <-. apply Qle_refl.
  - intros j q Hj. lia.
  - exists i', (fst (select_loop f 1 rest q0 c0)), (snd (select_loop f 1 rest q0 c0)).
    rewrite Hstart, <- surjective_pairing. auto.
Qed.

Lemma select_best_first_maximum_witness :
  0 < length ["B"; "C"; "D"]
  /\ scores_in_unit_range (length ["B"; "C"; "D"])
       (fun i => Num (if Nat.eqb i 0 then (1 # 4) else (1 # 2))%Q) = true
  /\ exists i m b,
      select_best ["B"; "C"; "D"]
        (fun i => Num (if Nat.eqb i 0 then (1 # 4) else (1 # 2))%Q) = Some (m, b)
      /\ nth_error ["B"; "C"; "D"] i = Some b
      /\ (fun i => Num (if Nat.eqb i 0 then (1 # 4) else (1 # 2))%Q) i = Num m
      /\ (forall j q, j < length ["B"; "C"; "D"] ->
            (fun i => Num (if Nat.eqb i 0 then (1 # 4) else (1 # 2))%Q) j = Num q ->
            (q <= m)%Q)
      /\ (forall j q, j < i ->
            (fun i => Num (if Nat.eqb i 0 then (1 # 4) else (1 # 2))%Q) j = Num q ->
            (q < m)%Q).
Proof.
  split; [simpl; lia | split; [reflexivity |]].
  apply select_best_first_maximum; [simpl; lia | reflexivity].
Defined.

(** On a tie between the second and third candidates, the second wins. *)
Example select_best_tie_first :
  select_best ["B"; "C"; "D"]
    (fun i => Num (if Nat.eqb i 0 then (1 # 4) else (1 # 2))%Q)
  = Some ((1 # 2)%Q, "C").
Proof. reflexivity. Qed.

Lemma select_loop_in (f : nat -> num) :
  forall rest k m b, In (snd (select_loop f k rest m b)) (b :: rest).
Proof.
  induction rest as [| c rest IH]; intros k m b; simpl.
  - left. reflexivity.
  - destruct (num_gt (f k) m).
    + right. apply IH.
    + destruct (IH (S k) m b) as [H | H]; [left | right; right]; assumption.
Qed.

(** C10.  Whatever the embeddings (also all [NaN]), when the vector solver
    reaches the scoring loop with a non-empty candidate list it returns a
    string link that belongs to that list. *)
Theorem vector_choice_in_candidates :
  forall (toFixed3 : Q -> string) (model : Extractor) (currentPage : WikiPage)
         (targetPage : string) (history : list string),
    find_directLink (links currentPage) targetPage = None ->
    0 < length (fst (filter_links currentPage history)) ->
    exists r l,
      snd (vector_getNextMove toFixed3 (Ok (Some model)) currentPage targetPage history)
        = Ok r
      /\ selectedLink r = JStr l
      /\ In l (fst (filter_links currentPage history)).
Proof.
  intros toFixed3 model p t h Hfind Hne.
  unfold vector_getNextMove. rewrite Hfind. unfold vector_rank.
  destruct (filter_links p h) as [cands back]. simpl in Hne |- *.
  destruct cands as [| c0 rest]; [simpl in Hne; lia |].
  destruct (embed_batch model (c0 :: rest)) as [hiddenSize data].
  destruct (select_loop (dot_at (embed_one model t) hiddenSize data) 0 (c0 :: rest) (-2)%Q c0)
    as [maxScore bestLink] eqn:Hsel.
  eexists. exists bestLink. split; [reflexivity | split; [reflexivity |]].
  pose proof (select_loop_in (dot_at (embed_one model t) hiddenSize data)
                (c0 :: rest) 0 (-2)%Q c0) as Hin.
  rewrite Hsel in Hin. simpl in Hin |- *. destruct Hin as [H | H]; auto.
Qed.

Lemma vector_choice_in_candidates_witness :
  find_directLink (links (page_of "A" ["B"; "C"])) "Z" = None
  /\ 0 < length (fst (filter_links (page_of "A" ["B"; "C"]) []))
  /\ exists r l,
      snd (vector_getNextMove fixed3_stub (Ok (Some nan_extractor))
             (page_of "A" ["B"; "C"]) "Z" []) = Ok r
      /\ selectedLink r = JStr l
      /\ In l (fst (filter_links (page_of "A" ["B"; "C"]) [])).
Proof.
  split; [reflexivity | split; [simpl; lia |]].
  apply vector_choice_in_candidates; [reflexivity | simpl; lia].
Defined.

(** ** Remote solvers *)

Example claude_clean_fenced :
  claude_clean ("Here: ```json" +++ String (ascii_of_nat 10) "{x}```  done")
  = "{x}".
Proof. reflexivity. Qed.

Example claude_clean_plain :
  claude_clean "  no object " = "no object".
Proof. reflexivity. Qed.

(** [v.k], reading [undefined] where the read would throw. *)
Definition field (v : jsval) (k : string) : jsval :=
  match get_prop v k with Some w => w | None => JUndef end.

(** How a reply whose text parsed to [parsed] is answered: the parse
    fallback when [JSON.parse] throws or gives [null]; otherwise the two
    fields, each defaulted when falsy. *)
Definition degrades (ls : list string) (parsed : option jsval) (r : AIResponse) : Prop :=
  match parsed with
  | None | Some JNull | Some JUndef => r = parse_fallback ls
  | Some v =>
      reasoning r = js_or (field v "reasoning") (JStr "No reasoning provided.")
      /\ selectedLink r = js_or (field v "selectedLink") (first_link ls)
  end.

Lemma from_parsed_degrades (ls : list string) (parsed : option jsval) :
  degrades ls parsed (from_parsed ls parsed).
Proof.
  destruct parsed as [v |]; [| reflexivity].
  destruct v; simpl; auto.
Qed.

(** C8 (amended).  Whatever [JSON.parse] does, the reply handling of the
    Gemini and OpenAI solvers, and of the Claude solver when the reply has
    a first content block, throws nothing.  A reply whose text (Claude:
    cleaned text) fails to parse or parses to [null], an OpenAI reply
    without choices and a Claude block without text give the first link
    of the page ([undefined] when there is none) with the reasoning
    "Failed to parse AI response. Picking first link."; any other parsed
    value gives its [reasoning] field, or "No reasoning provided." when
    that is falsy, and its [selectedLink] field, or the first link when
    that is falsy. *)
Theorem remote_replies_degrade :
  forall (JSON_parse : string -> option jsval) (currentPage : WikiPage)
         (text : option string) (choices : list (option string))
         (block : option string) (blocks : list (option string)),
    (exists r, gemini_handle JSON_parse currentPage text = Ok r
               /\ degrades (links currentPage) (JSON_parse (or_empty_object text)) r)
    /\ (exists r, openai_handle JSON_parse currentPage choices = Ok r
                  /\ match choices with
                     | [] => r = parse_fallback (links currentPage)
                     | content :: _ =>
                         degrades (links currentPage)
                           (JSON_parse (or_empty_object content)) r
                     end)
    /\ (exists r, claude_handle JSON_parse currentPage (block :: blocks) = Ok r
                  /\ match block with
                     | None => r = parse_fallback (links currentPage)
                     | Some t =>
                         degrades (links currentPage)
                           (JSON_parse (or_empty_object (Some (claude_clean t)))) r
                     end).
Proof.
  intros P p text choices block blocks. split; [| split].
  - eexists. split; [reflexivity | apply from_parsed_degrades].
  - destruct choices as [| c cs]; eexists; (split; [reflexivity |]);
      [reflexivity | apply from_parsed_degrades].
  - destruct block as [t |]; eexists; (split; [reflexivity |]);
      [apply from_parsed_degrades | reflexivity].
Qed.

(** [JSON.parse] on the text [{}], which it parses to an empty object. *)
Definition json_parse_empty_object (s : string) : option jsval :=
  if String.eqb s "{}" then Some (JObj []) else None.

(** C8 counterexample: the Gemini reply [{}] (no field of the required
    schema) is answered with "No reasoning provided.", not with a note of
    a parse failure; and a Claude reply without content blocks lets a
    [TypeError] escape. *)
Lemma remote_reply_malformed_not_noted :
  gemini_handle json_parse_empty_object (page_of "A" ["B"]) (Some "{}")
    = Ok (mkAIResponse (JStr "No reasoning provided.") (JStr "B"))
  /\ exists m, claude_handle json_parse_empty_object (page_of "A" ["B"]) [] = Throw m.
Proof. split; [reflexivity | eexists; reflexivity]. Qed.

(** ** Orchestrator *)

(** A running game on page [p] toward [target], nothing in flight. *)
Definition app_at (p : WikiPage) (target : string) : App :=
  mkApp "A" target GEMINI (Some p) [] PLAYING None None [] 0.

Definition answer (l : string) : AIResponse := mkAIResponse (JStr "because") (JStr l).

(** One hop with no other event in between: the tick, the solver reply,
    the pacing delay and the destination fetch. *)
Definition hop_events (id : nat) (move : AIResponse) (page : WikiPage)
  (t0 t1 now : Z) : list Event :=
  [ETick t0; ESolverReturns id (Ok move) t1 now; EDelayElapsed id;
   EFetchReturns id (Ok page)].

Lemma lookup_task_head (id : nat) (t : Task) (ts : list (nat * Task)) :
  lookup_task id ((id, t) :: ts) = Some t.
Proof. simpl. rewrite Nat.eqb_refl. reflexivity. Qed.

Lemma set_task_head (id : nat) (t u : Task) (ts : list (nat * Task)) :
  set_task id t ((id, u) :: ts) = (id, t) :: ts.
Proof. simpl. rewrite Nat.eqb_refl. reflexivity. Qed.

Lemma drop_task_head (id : nat) (u : Task) (ts : list (nat * Task)) :
  drop_task id ((id, u) :: ts) = ts.
Proof. simpl. rewrite Nat.eqb_refl. reflexivity. Qed.

(** Run the scheduler on a task at the head of the task list. *)
Ltac tasks_simpl :=
  repeat progress
    (unfold with_status, with_error, with_history, with_page, with_highlight,
       with_tasks, spawn, resume, finish, move_catch;
     cbn -[Nat.leb maxSteps normalizeTitle String.eqb lookup_task set_task drop_task];
     rewrite ?lookup_task_head, ?set_task_head, ?drop_task_head).

Lemma hop_run :
  forall (s : App) (p : WikiPage) (move : AIResponse) (l : string)
         (q : WikiPage) (t0 t1 now : Z),
    status s = PLAYING ->
    currentWikiPage s = Some p ->
    String.eqb (normalizeTitle (title p)) (normalizeTitle (targetPage s)) = false ->
    length (history s) < maxSteps ->
    selectedLink move = JStr l ->
    run s (hop_events (next_id s) move q t0 t1 now)
    = Some (mkApp (startPage s) (targetPage s) (solver_sel s) (Some q)
              (history s ++ [mkGameStep (title p) (reasoning move) now
                               (t1 - t0)%Z (solver_sel s)])
              (if String.eqb (normalizeTitle l) (normalizeTitle (targetPage s))
               then SUCCESS else PLAYING)
              (error s) None (tasks s) (S (next_id s))).
Proof.
  intros [sp tp sv cur h st err hl ts n] p move l q t0 t1 now
    Hst Hcur Hneq Hlen Hsel; simpl in Hst, Hcur, Hneq, Hlen; subst st cur.
  assert (Hleb : Nat.leb maxSteps (length h) = false) by (apply Nat.leb_gt; exact Hlen).
  unfold hop_events, run, step, executeMove_start.
  cbn -[Nat.leb maxSteps normalizeTitle String.eqb lookup_task set_task drop_task].
  rewrite Hneq, Hleb.
  tasks_simpl.
  rewrite Hsel.
  destruct (String.eqb (normalizeTitle l) (normalizeTitle tp)); tasks_simpl; reflexivity.
Qed.

(** C1 (amended).  [executeMove] never checks the solver's link against the
    links of the current page: for any string link that does not match the
    target, an uninterrupted hop appends the step and makes the fetched
    page current, and the game goes on.  Only a solver exception, a
    non-string link or a failed fetch end the game in [FAILED]. *)
Theorem executeMove_commits_unchecked_link :
  forall (s : App) (p : WikiPage) (move : AIResponse) (l : string)
         (q : WikiPage) (t0 t1 now : Z),
    status s = PLAYING ->
    currentWikiPage s = Some p ->
    String.eqb (normalizeTitle (title p)) (normalizeTitle (targetPage s)) = false ->
    length (history s) < maxSteps ->
    selectedLink move = JStr l ->
    String.eqb (normalizeTitle l) (normalizeTitle (targetPage s)) = false ->
    exists s',
      run s (hop_events (next_id s) move q t0 t1 now) = Some s'
      /\ history s' = history s ++ [mkGameStep (title p) (reasoning move) now
                                     (t1 - t0)%Z (solver_sel s)]
      /\ currentWikiPage s' = Some q
      /\ status s' = PLAYING.
Proof.
  intros s p move l q t0 t1 now Hst Hcur Hneq Hlen Hsel Hl.
  rewrite (hop_run s p move l q t0 t1 now Hst Hcur Hneq Hlen Hsel), Hl.
  eexists. split; [reflexivity |]. simpl. auto.
Qed.

Lemma executeMove_commits_unchecked_link_witness :
  exists s',
    run (app_at (page_of "A" ["B"]) "Cheese")
      (hop_events 0 (answer "Z") (page_of "Z" []) 0 0 0) = Some s'
    /\ history s' = [mkGameStep "A" (JStr "because") 0 0 GEMINI]
    /\ currentWikiPage s' = Some (page_of "Z" [])
    /\ status s' = PLAYING.
Proof.
  apply (executeMove_commits_unchecked_link (app_at (page_of "A" ["B"]) "Cheese")
           (page_of "A" ["B"]) (answer "Z") "Z" (page_of "Z" []) 0 0 0);
    first [reflexivity | unfold maxSteps; simpl; lia].
Defined.

(** C1 counterexample: the solver answers [Z], which is not a link of the
    page [A]; the step is committed, [Z] becomes current and the game goes
    on instead of failing. *)
Lemma executeMove_follows_link_not_on_page :
  ~ In "Z" (links (page_of "A" ["B"]))
  /\ exists s',
      run (app_at (page_of "A" ["B"]) "Cheese")
        (hop_events 0 (answer "Z") (page_of "Z" []) 0 0 0) = Some s'
      /\ length (history s') = 1
      /\ currentWikiPage s' = Some (page_of "Z" [])
      /\ status s' = PLAYING.
Proof.
  split.
  - simpl. intros [H | H]; [discriminate H | exact H].
  - eexists. split; [reflexivity |]. simpl. auto.
Qed.

(** C4 (amended).  After a hop is committed, the last step records the
    page the hop left (the current page when the step began), while the
    current page becomes the fetched destination. *)
Theorem committed_step_records_departed_page :
  forall (s : App) (p : WikiPage) (move : AIResponse) (l : string)
         (q : WikiPage) (t0 t1 now : Z),
    status s = PLAYING ->
    currentWikiPage s = Some p ->
    String.eqb (normalizeTitle (title p)) (normalizeTitle (targetPage s)) = false ->
    length (history s) < maxSteps ->
    selectedLink move = JStr l ->
    exists s' st,
      run s (hop_events (next_id s) move q t0 t1 now) = Some s'
      /\ hd_error (rev (history s')) = Some st
      /\ pageTitle st = title p
      /\ currentWikiPage s' = Some q.
Proof.
  intros s p move l q t0 t1 now Hst Hcur Hneq Hlen Hsel.
  rewrite (hop_run s p move l q t0 t1 now Hst Hcur Hneq Hlen Hsel).
  do 2 eexists. split; [reflexivity |]. simpl.
  rewrite rev_app_distr. simpl. auto.
Qed.

Lemma committed_step_records_departed_page_witness :
  exists s' st,
    run (app_at (page_of "A" ["B"]) "Cheese")
      (hop_events 0 (answer "B") (page_of "B" []) 0 0 0) = Some s'
    /\ hd_error (rev (history s')) = Some st
    /\ pageTitle st = "A"
    /\ currentWikiPage s' = Some (page_of "B" []).
Proof.
  apply (committed_step_records_departed_page (app_at (page_of "A" ["B"]) "Cheese")
           (page_of "A" ["B"]) (answer "B") "B" (page_of "B" []) 0 0 0);
    first [reflexivity | unfold maxSteps; simpl; lia].
Defined.

(** C4 counterexample: after the hop from [A] to [B] the last step names
    [A] while the current page is [B]. *)
Lemma last_step_is_not_current_page :
  exists s',
    run (app_at (page_of "A" ["B"]) "Cheese")
      (hop_events 0 (answer "B") (page_of "B" []) 0 0 0) = Some s'
    /\ option_map pageTitle (hd_error (rev (history s'))) = Some "A"
    /\ option_map title (currentWikiPage s') = Some "B".
Proof. eexists. split; [reflexivity |]. simpl. auto. Qed.

(** The outcome a pause during a step should have: the step appended, the
    destination current, the game [PAUSED] and no tick enabled. *)
Definition committed_and_paused (s s' : App) (p : WikiPage) (move : AIResponse)
  (q : WikiPage) (t0 t1 now : Z) : Prop :=
  history s' = history s ++ [mkGameStep (title p) (reasoning move) now
                               (t1 - t0)%Z (solver_sel s)]
  /\ currentWikiPage s' = Some q
  /\ status s' = PAUSED
  /\ forall t, step s' (ETick t) = None.

(** Single scheduler steps of one hop, for a task found in the task list. *)
Lemma run_cons_some (s s' : App) (e : Event) (es : list Event) :
  step s e = Some s' -> run s (e :: es) = run s' es.
Proof. intros H. simpl. rewrite H. reflexivity. Qed.

Lemma tick_spawns (s : App) (p : WikiPage) (t : Z) :
  status s = PLAYING ->
  currentWikiPage s = Some p ->
  String.eqb (normalizeTitle (title p)) (normalizeTitle (targetPage s)) = false ->
  length (history s) < maxSteps ->
  step s (ETick t)
  = Some (spawn (MoveAwaitSolver (mkClosure p (targetPage s) (solver_sel s)) t)
            (with_status LOADING_STEP s)).
Proof.
  intros Hst Hcur Hneq Hlen. unfold step, executeMove_start. rewrite Hst, Hcur.
  cbn -[Nat.leb maxSteps String.eqb normalizeTitle].
  rewrite Hneq, (proj2 (Nat.leb_gt _ _) Hlen). reflexivity.
Qed.

Lemma solver_step (s : App) (id : nat) (cl : Closure) (t0 : Z) (move : AIResponse)
  (t1 now : Z) :
  lookup_task id (tasks s) = Some (MoveAwaitSolver cl t0) ->
  step s (ESolverReturns id (Ok move) t1 now)
  = Some (resume id (MoveAwaitDelay cl move)
            (with_history
               (history s ++ [mkGameStep (title (cl_page cl)) (reasoning move) now
                                (t1 - t0)%Z (cl_solver cl)])
               (with_highlight (Some (selectedLink move)) s))).
Proof. intros H. unfold step. rewrite H. reflexivity. Qed.

Lemma delay_step_next (s : App) (id : nat) (cl : Closure) (move : AIResponse) (l : string) :
  lookup_task id (tasks s) = Some (MoveAwaitDelay cl move) ->
  selectedLink move = JStr l ->
  String.eqb (normalizeTitle l) (normalizeTitle (cl_target cl)) = false ->
  GameStatus_eqb (status s) PAUSED = false ->
  step s (EDelayElapsed id) = Some (resume id (MoveAwaitFetch cl NextFetch l) s).
Proof. intros H1 H2 H3 H4. unfold step. rewrite H1, H2, H3, H4. reflexivity. Qed.

Lemma fetch_step_next (s : App) (id : nat) (cl : Closure) (l : string) (page : WikiPage) :
  lookup_task id (tasks s) = Some (MoveAwaitFetch cl NextFetch l) ->
  step s (EFetchReturns id (Ok page))
  = Some (with_status PLAYING (finish id (with_highlight None (with_page (Some page) s)))).
Proof. intros H. unfold step. rewrite H. reflexivity. Qed.

(** A pause pressed while the solver call or the pacing delay of an
    ordinary step is in flight: the step is still appended and the
    destination becomes current, but the game stays [PAUSED] and no tick
    can run. *)
Theorem pause_mid_step_commits_and_stays_paused :
  forall (s : App) (p : WikiPage) (move : AIResponse) (l : string)
         (q : WikiPage) (t0 t1 now : Z),
    status s = PLAYING ->
    currentWikiPage s = Some p ->
    String.eqb (normalizeTitle (title p)) (normalizeTitle (targetPage s)) = false ->
    length (history s) < maxSteps ->
    selectedLink move = JStr l ->
    String.eqb (normalizeTitle l) (normalizeTitle (targetPage s)) = false ->
    (exists s',
        run s [ETick t0; ETogglePause; ESolverReturns (next_id s) (Ok move) t1 now;
               EDelayElapsed (next_id s); EFetchReturns (next_id s) (Ok q)] = Some s'
        /\ committed_and_paused s s' p move q t0 t1 now)
    /\ (exists s',
        run s [ETick t0; ESolverReturns (next_id s) (Ok move) t1 now; ETogglePause;
               EDelayElapsed (next_id s); EFetchReturns (next_id s) (Ok q)] = Some s'
        /\ committed_and_paused s s' p move q t0 t1 now).
Proof.
  intros [sp tp sv cur h st err hl ts n] p move l q t0 t1 now
    Hst Hcur Hneq Hlen Hsel Hl;
    simpl in Hst, Hcur, Hneq, Hlen, Hl |- *; subst st cur.
  assert (Hleb : Nat.leb maxSteps (length h) = false) by (apply Nat.leb_gt; exact Hlen).
  unfold committed_and_paused, run, step, executeMove_start.
  split; tasks_simpl; rewrite Hneq, Hleb; tasks_simpl; rewrite Hsel; tasks_simpl;
    rewrite Hl; tasks_simpl;
    (eexists; split; [reflexivity |]); simpl; repeat split; auto.
Qed.

Lemma pause_mid_step_commits_and_stays_paused_witness :
  (exists s',
      run (app_at (page_of "A" ["B"]) "Cheese")
        [ETick 0; ETogglePause; ESolverReturns 0 (Ok (answer "B")) 0 0;
         EDelayElapsed 0; EFetchReturns 0 (Ok (page_of "B" []))] = Some s'
      /\ committed_and_paused (app_at (page_of "A" ["B"]) "Cheese") s'
           (page_of "A" ["B"]) (answer "B") (page_of "B" []) 0 0 0)
  /\ (exists s',
      run (app_at (page_of "A" ["B"]) "Cheese")
        [ETick 0; ESolverReturns 0 (Ok (answer "B")) 0 0; ETogglePause;
         EDelayElapsed 0; EFetchReturns 0 (Ok (page_of "B" []))] = Some s'
      /\ committed_and_paused (app_at (page_of "A" ["B"]) "Cheese") s'
           (page_of "A" ["B"]) (answer "B") (page_of "B" []) 0 0 0).
Proof.
  apply (pause_mid_step_commits_and_stays_paused (app_at (page_of "A" ["B"]) "Cheese")
           (page_of "A" ["B"]) (answer "B") "B" (page_of "B" []) 0 0 0);
    first [reflexivity | unfold maxSteps; simpl; lia].
Defined.

(** A pause pressed during the solver call of a step whose link is the
    target does not leave the game paused: it ends in [SUCCESS]. *)
Lemma pause_mid_step_then_target_succeeds :
  exists s',
    run (app_at (page_of "A" ["Cheese"]) "Cheese")
      [ETick 0; ETogglePause; ESolverReturns 0 (Ok (answer "Cheese")) 0 0;
       EDelayElapsed 0; EFetchReturns 0 (Ok (page_of "Cheese" []))] = Some s'
    /\ length (history s') = 1
    /\ status s' = SUCCESS.
Proof. eexists. split; [reflexivity |]. simpl. auto. Qed.

(** C9.  A pause pressed while the destination fetch of an ordinary step
    is in flight does not hold: the step is appended and the destination
    becomes current, but the [setStatus(PLAYING)] that follows the fetch
    overwrites the pause, so the game is [PLAYING] again and the next
    automatic tick runs. *)
Theorem pause_during_destination_fetch_overwritten :
  forall (s : App) (p : WikiPage) (move : AIResponse) (l : string)
         (q : WikiPage) (t0 t1 now : Z),
    status s = PLAYING ->
    currentWikiPage s = Some p ->
    String.eqb (normalizeTitle (title p)) (normalizeTitle (targetPage s)) = false ->
    length (history s) < maxSteps ->
    selectedLink move = JStr l ->
    String.eqb (normalizeTitle l) (normalizeTitle (targetPage s)) = false ->
    exists s',
      run s [ETick t0; ESolverReturns (next_id s) (Ok move) t1 now;
             EDelayElapsed (next_id s); ETogglePause;
             EFetchReturns (next_id s) (Ok q)] = Some s'
      /\ history s' = history s ++ [mkGameStep (title p) (reasoning move) now
                                      (t1 - t0)%Z (solver_sel s)]
      /\ currentWikiPage s' = Some q
      /\ status s' = PLAYING
      /\ forall t, step s' (ETick t) <> None.
Proof.
  intros s p move l q t0 t1 now Hst Hcur Hneq Hlen Hsel Hl.
  rewrite (run_cons_some _ _ _ _ (tick_spawns s p t0 Hst Hcur Hneq Hlen)).
  destruct s as [sp tp sv cur h st err hl ts n]; cbn [targetPage] in Hl.
  erewrite run_cons_some by (apply solver_step; apply lookup_task_head).
  erewrite run_cons_some
    by (apply (delay_step_next _ n (mkClosure p tp sv) move l);
        [cbn [tasks resume with_tasks with_history with_highlight with_error
                with_page with_status spawn];
         rewrite set_task_head; apply lookup_task_head
        | exact Hsel | exact Hl | reflexivity]).
  erewrite run_cons_some by reflexivity.
  erewrite run_cons_some
    by (apply fetch_step_next with (cl := mkClosure p tp sv) (l := l);
        cbn [tasks resume with_tasks with_history with_highlight with_error
               with_page with_status spawn];
        rewrite !set_task_head; apply lookup_task_head).
  eexists. split; [reflexivity |]. split; [reflexivity |].
  split; [reflexivity |]. split; [reflexivity |].
  intros t. unfold step. cbn [status with_status GameStatus_eqb]. discriminate.
Qed.

Lemma pause_during_destination_fetch_overwritten_witness :
  exists s',
    run (app_at (page_of "A" ["B"]) "Cheese")
      [ETick 0; ESolverReturns 0 (Ok (answer "B")) 0 0; EDelayElapsed 0;
       ETogglePause; EFetchReturns 0 (Ok (page_of "B" []))] = Some s'
    /\ history s' = history (app_at (page_of "A" ["B"]) "Cheese")
                    ++ [mkGameStep "A" (reasoning (answer "B")) 0 0 GEMINI]
    /\ currentWikiPage s' = Some (page_of "B" [])
    /\ status s' = PLAYING
    /\ forall t, step s' (ETick t) <> None.
Proof.
  apply (pause_during_destination_fetch_overwritten (app_at (page_of "A" ["B"]) "Cheese")
           (page_of "A" ["B"]) (answer "B") "B" (page_of "B" []) 0 0 0);
    first [reflexivity | unfold maxSteps; simpl; lia].
Defined.

(** At the budget, a tick ends the game in [FAILED] with the budget message
    and starts no solver call. *)
Lemma tick_at_budget_fails :
  forall (s : App) (p : WikiPage) (t : Z),
    status s = PLAYING ->
    currentWikiPage s = Some p ->
    String.eqb (normalizeTitle (title p)) (normalizeTitle (targetPage s)) = false ->
    maxSteps <= length (history s) ->
    exists s',
      step s (ETick t) = Some s'
      /\ status s' = FAILED
      /\ error s' = Some "Maximum attempts reached without finding the target."
      /\ tasks s' = tasks s
      /\ history s' = history s.
Proof.
  intros s p t Hst Hcur Hneq Hle.
  assert (Hleb : Nat.leb maxSteps (length (history s)) = true)
    by (apply Nat.leb_le; exact Hle).
  unfold step, executeMove_start. rewrite Hst, Hcur.
  cbn -[Nat.leb maxSteps String.eqb normalizeTitle].
  rewrite Hneq, Hleb. eexists. split; [reflexivity |]. simpl. auto.
Qed.

Definition page_apollo : WikiPage := page_of "Apollo 11" ["Moon"].
Definition page_moon : WikiPage := page_of "Moon" ["Apollo 11"].

(** [n] uninterrupted hops back and forth between two pages, the first one
    run by task [id]. *)
Fixpoint hops (n id : nat) (here there : WikiPage) : list Event :=
  match n with
  | 0 => []
  | S n' => hop_events id (answer (title there)) there 0 0 0 ++ hops n' (S id) there here
  end.

(** A game from a fresh page load: start, 39 hops, then the stop button is
    pressed twice while the 40th solver call is in flight; the resumed game
    ticks again and starts a 41st call from the same history. *)
Definition budget_race : list Event :=
  [EStartClicked; EFetchReturns 0 (Ok page_apollo)]
  ++ hops 39 1 page_apollo page_moon
  ++ [ETick 0; ETogglePause; ETogglePause; ETick 0;
      ESolverReturns 40 (Ok (answer "Apollo 11")) 0 0;
      ESolverReturns 41 (Ok (answer "Apollo 11")) 0 0].

Example budget_race_before_overlap :
  option_map (fun s => (length (history s), status s))
    (run app_init ([EStartClicked; EFetchReturns 0 (Ok page_apollo)]
                   ++ hops 39 1 page_apollo page_moon))
  = Some (39, PLAYING).
Proof. vm_compute. reflexivity. Qed.

(** C7: the history outgrows the step budget.  In the run [budget_race] two
    solver calls are in flight at once, both started from a history of 39
    steps, and both append: the history reaches 41 steps for a budget of
    40. *)
Theorem budget_race_exceeds_max_steps :
  maxSteps = 40
  /\ option_map (fun s => length (history s)) (run app_init budget_race) = Some 41.
Proof. split; [reflexivity | vm_compute; reflexivity]. Qed.

(** ** Further properties *)

(** *** Vector solver: link filter and choice *)

Lemma dedup_from_spec (l : list string) :
  forall seen,
    NoDup (dedup_from seen l)
    /\ (forall x, In x (dedup_from seen l) <-> In x l /\ ~ In x seen).
Proof.
  induction l as [| a l IH]; intros seen; simpl.
  - split; [constructor | intros x; split; [intros [] | intros [[] _]]].
  - destruct (str_mem a seen) eqn:Hm.
    + destruct (IH seen) as [Hnd Hiff]. split; [exact Hnd |].
      intros x. rewrite Hiff. split.
      * intros [Hx Hs]. auto.
      * intros [[Ha | Hx] Hs]; [| auto]. subst a.
        apply str_mem_In in Hm. contradiction.
    + destruct (IH (a :: seen)) as [Hnd Hiff]. split.
      * constructor; [| exact Hnd].
        intros Ha. apply Hiff in Ha as [_ Ha]. apply Ha. left. reflexivity.
      * intros x. simpl. rewrite Hiff. split.
        -- intros [Ha | [Hx Hs]].
           ++ subst a. split; [left; reflexivity |].
              intros Hin. apply (proj2 (str_mem_In x seen)) in Hin. congruence.
           ++ split; [right; exact Hx | intros Hin; apply Hs; right; exact Hin].
        -- intros [[Ha | Hx] Hs]; [left; exact Ha |].
           destruct (string_dec a x) as [-> | Hne]; [left; reflexivity |].
           right. split; [exact Hx |]. intros [H | H]; contradiction.
Qed.

Lemma filter_nil_false {A : Type} (f : A -> bool) (l : list A) :
  filter f l = [] -> forall x, In x l -> f x = false.
Proof.
  induction l as [| a l IH]; simpl; [intros _ x [] |].
  destruct (f a) eqn:Ha; [discriminate |].
  intros H x [<- | Hx]; auto.
Qed.

Lemma NoDup_firstn_of {A : Type} (n : nat) (l : list A) :
  NoDup l -> NoDup (firstn n l).
Proof.
  intros H. rewrite <- (firstn_skipn n l) in H. exact (NoDup_app_remove_r _ _ H).
Qed.

(** The two outcomes of the filter: unvisited links kept, or the fallback. *)
Lemma filter_links_cases (p : WikiPage) (h : list string) :
  let visited := map toLowerCase h ++ [toLowerCase (title p)] in
  let unvisited := filter (fun l => negb (str_mem (toLowerCase l) visited))
                     (dedup (links p)) in
  (unvisited <> [] /\ filter_links p h = (firstn 200 unvisited, false))
  \/ (unvisited = []
      /\ filter_links p h
         = (firstn 200 (filter (fun l => negb (String.eqb (toLowerCase l)
                                                 (toLowerCase (title p))))
                          (dedup (links p))), true)).
Proof.
  intros visited unvisited. unfold filter_links. fold visited. fold unvisited.
  destruct unvisited as [| c k] eqn:Hu; cbv beta iota zeta.
  - right. split; reflexivity.
  - left. split; [discriminate | reflexivity].
Qed.

Lemma filter_links_sub (p : WikiPage) (h : list string) :
  NoDup (fst (filter_links p h))
  /\ (forall l, In l (fst (filter_links p h)) -> In l (links p))
  /\ length (fst (filter_links p h)) <= 200.
Proof.
  assert (G : forall g : string -> bool,
             NoDup (firstn 200 (filter g (dedup (links p))))
             /\ (forall l, In l (firstn 200 (filter g (dedup (links p)))) -> In l (links p))
             /\ length (firstn 200 (filter g (dedup (links p)))) <= 200).
  { intros g. destruct (dedup_from_spec (links p) []) as [Hnd Hiff].
    split; [| split].
    - apply NoDup_firstn_of, NoDup_filter, Hnd.
    - intros l Hl. apply in_firstn, filter_In in Hl as [Hl _].
      apply Hiff in Hl as [Hl _]. exact Hl.
    - apply firstn_le_length. }
  destruct (filter_links_cases p h) as [[_ ->] | [_ ->]]; apply G.
Qed.

(** [Array.from(new Set(links))] in the vector solver: the result has no
    duplicates and has exactly the members of the page's link list. *)
Theorem dedup_distinct_same_members :
  forall ls : list string,
    NoDup (dedup ls) /\ (forall x, In x (dedup ls) <-> In x ls).
Proof.
  intros ls. destruct (dedup_from_spec ls []) as [Hnd Hiff]. split; [exact Hnd |].
  intros x. rewrite Hiff. split; [intros [H _]; exact H | intros H; split; [exact H | intros []]].
Qed.

(** The vector solver's candidates are distinct links of the current page,
    at most 200 of them, in both the normal and the fallback mode. *)
Theorem filter_links_candidates_from_page :
  forall (currentPage : WikiPage) (history : list string),
    NoDup (fst (filter_links currentPage history))
    /\ (forall l, In l (fst (filter_links currentPage history)) -> In l (links currentPage))
    /\ length (fst (filter_links currentPage history)) <= 200.
Proof. intros p h. exact (filter_links_sub p h). Qed.

(** The vector solver falls back ([isBacktracking]) exactly when the
    lowercase form of every link of the page is among the lowercase forms of
    the history entries and of the current title. *)
Theorem filter_links_backtracking_iff :
  forall (currentPage : WikiPage) (history : list string),
    snd (filter_links currentPage history) = true
    <-> (forall l, In l (links currentPage) ->
         In (toLowerCase l)
           (map toLowerCase history ++ [toLowerCase (title currentPage)])).
Proof.
  intros p h.
  destruct (dedup_from_spec (links p) []) as [_ Hiff].
  destruct (filter_links_cases p h) as [[Hne ->] | [Hnil ->]]; cbn [snd].
  - split; [discriminate |]. intros Hall. exfalso. apply Hne.
    destruct (filter _ (dedup (links p))) as [| c k] eqn:Hf; [reflexivity | exfalso].
    assert (Hc : In c (filter (fun l => negb (str_mem (toLowerCase l)
                   (map toLowerCase h ++ [toLowerCase (title p)]))) (dedup (links p))))
      by (rewrite Hf; left; reflexivity).
    apply filter_In in Hc as [Hc Hg]. apply Hiff in Hc as [Hc _].
    apply Hall, str_mem_In in Hc. rewrite Hc in Hg. discriminate.
  - split; [intros _ | reflexivity]. intros l Hl.
    assert (Hu : In l (dedup (links p))) by (apply Hiff; split; [exact Hl | intros []]).
    pose proof (filter_nil_false _ _ Hnil l Hu) as Hg.
    apply negb_false_iff, str_mem_In in Hg. exact Hg.
Qed.

(** No candidate of the vector solver, in either mode, has the lowercase form
    of the current page's title: the fallback drops the current page
    too. *)
Theorem filter_links_never_current :
  forall (currentPage : WikiPage) (history : list string) (l : string),
    In l (fst (filter_links currentPage history)) ->
    toLowerCase l <> toLowerCase (title currentPage).
Proof.
  intros p h l.
  destruct (filter_links_cases p h) as [[_ ->] | [_ ->]]; cbn [fst];
    intros Hl Heq; apply in_firstn, filter_In in Hl as [_ Hg].
  - apply negb_true_iff in Hg.
    assert (Hm : str_mem (toLowerCase l) (map toLowerCase h ++ [toLowerCase (title p)]) = true)
      by (apply str_mem_In; rewrite Heq; apply in_or_app; right; left; reflexivity).
    congruence.
  - rewrite Heq, String.eqb_refl in Hg. discriminate.
Qed.

(** The scoring branch of [vector_rank]. *)
Lemma vector_rank_scored (toFixed3 : Q -> string) (model : Extractor)
  (p : WikiPage) (t : string) (h : list string) :
  fst (filter_links p h) <> [] ->
  exists r l,
    snd (vector_rank toFixed3 (Ok (Some model)) p t h) = Ok r
    /\ selectedLink r = JStr l
    /\ In l (fst (filter_links p h)).
Proof.
  intros Hne. unfold vector_rank.
  destruct (filter_links p h) as [cands back]. simpl in Hne |- *.
  destruct cands as [| c0 rest]; [congruence |].
  destruct (embed_batch model (c0 :: rest)) as [hiddenSize data].
  destruct (select_loop (dot_at (embed_one model t) hiddenSize data) 0 (c0 :: rest) (-2)%Q c0)
    as [maxScore bestLink] eqn:Hsel.
  eexists. exists bestLink. split; [reflexivity | split; [reflexivity |]].
  pose proof (select_loop_in (dot_at (embed_one model t) hiddenSize data)
                (c0 :: rest) 0 (-2)%Q c0) as Hin.
  rewrite Hsel in Hin. simpl in Hin |- *. destruct Hin as [H | H]; auto.
Qed.

Lemma vector_rank_on_page (toFixed3 : Q -> string) load p t h r :
  snd (vector_rank toFixed3 load p t h) = Ok r ->
  exists l, selectedLink r = JStr l /\ (In l (links p) \/ l = "Main_Page").
Proof.
  intros Hr.
  destruct load as [[model |] | e]; try discriminate.
  destruct (fst (filter_links p h)) as [| c k] eqn:Hf.
  - unfold vector_rank in Hr. destruct (filter_links p h) as [cands back].
    simpl in Hf. subst cands. simpl in Hr. injection Hr as <-. simpl.
    destruct (links p) as [| x xs]; simpl.
    + exists "Main_Page". auto.
    + unfold js_or. simpl. destruct (negb (String.eqb x EmptyString)).
      * exists x. split; [reflexivity | left; left; reflexivity].
      * exists "Main_Page". auto.
  - destruct (vector_rank_scored toFixed3 model p t h) as [r' [l [Hr' [Hl Hin]]]];
      [rewrite Hf; discriminate |].
    rewrite Hr in Hr'. injection Hr' as <-. exists l. split; [exact Hl |].
    left. apply (proj1 (proj2 (filter_links_sub p h))). exact Hin.
Qed.

(** Whenever the vector solver answers, its link is a string that is a link
    of the current page or the literal [Main_Page]; it never invents
    another title. *)
Theorem vector_link_on_page_or_main :
  forall (toFixed3 : Q -> string) (load : outcome (option Extractor))
         (currentPage : WikiPage) (targetPage : string) (history : list string)
         (r : AIResponse),
    snd (vector_getNextMove toFixed3 load currentPage targetPage history) = Ok r ->
    exists l, selectedLink r = JStr l /\ (In l (links currentPage) \/ l = "Main_Page").
Proof.
  intros toFixed3 load p t h r. unfold vector_getNextMove.
  destruct (find_directLink (links p) t) as [d |] eqn:Hd.
  - destruct (truthy (JStr d)); [| apply vector_rank_on_page].
    simpl. intros Hr. injection Hr as <-. exists d. split; [reflexivity | left].
    unfold find_directLink in Hd. apply find_some in Hd as [Hd _]. exact Hd.
  - apply vector_rank_on_page.
Qed.

(** With the model loaded and no direct match, if some link of the page has a
    lowercase form not yet visited, the vector solver picks such an
    unvisited link of the page. *)
Theorem vector_prefers_unvisited :
  forall (toFixed3 : Q -> string) (model : Extractor) (currentPage : WikiPage)
         (targetPage : string) (history : list string),
    find_directLink (links currentPage) targetPage = None ->
    existsb (fun l => negb (str_mem (toLowerCase l)
                              (map toLowerCase history ++ [toLowerCase (title currentPage)])))
      (links currentPage) = true ->
    exists r l,
      snd (vector_getNextMove toFixed3 (Ok (Some model)) currentPage targetPage history)
        = Ok r
      /\ selectedLink r = JStr l
      /\ In l (links currentPage)
      /\ ~ In (toLowerCase l)
             (map toLowerCase history ++ [toLowerCase (title currentPage)]).
Proof.
  intros toFixed3 model p t h Hd Hex.
  destruct (dedup_from_spec (links p) []) as [_ Hiff].
  apply existsb_exists in Hex as [l0 [Hl0 Hg0]].
  destruct (filter_links_cases p h) as [[Hne Hfl] | [Hnil _]].
  - unfold vector_getNextMove. rewrite Hd.
    destruct (vector_rank_scored toFixed3 model p t h) as [r [l [Hr [Hl Hin]]]].
    { rewrite Hfl. cbn [fst].
      destruct (filter _ (dedup (links p))) as [| c k]; [congruence | simpl; discriminate]. }
    exists r, l. split; [exact Hr | split; [exact Hl |]].
    rewrite Hfl in Hin. cbn [fst] in Hin. apply in_firstn, filter_In in Hin as [Hin Hg].
    apply Hiff in Hin as [Hin _]. split; [exact Hin |].
    apply negb_true_iff in Hg. intros Hv. apply str_mem_In in Hv. congruence.
  - exfalso.
    assert (Hu : In l0 (dedup (links p))) by (apply Hiff; split; [exact Hl0 | intros []]).
    pose proof (filter_nil_false _ _ Hnil l0 Hu) as Hg. congruence.
Qed.

(** *** Remote solvers *)

Lemma trim_start_fixed (l : list ascii) :
  match l with [] => True | c :: _ => is_js_space c = false end ->
  trim_start l = l.
Proof. destruct l as [| c l]; simpl; [reflexivity | intros ->; reflexivity]. Qed.

Lemma clean_trim_list (l : list ascii) : clean l -> trim_list l = l.
Proof.
  intros [H1 H2]. unfold trim_list. rewrite H1, H2, rev_involutive. reflexivity.
Qed.

Lemma list_ascii_of_string_app (a b : string) :
  list_ascii_of_string (a +++ b) = list_ascii_of_string a ++ list_ascii_of_string b.
Proof. induction a as [| c a IH]; simpl; [reflexivity | rewrite IH; reflexivity]. Qed.

Lemma is_prefix_app_l (p q l : list ascii) :
  is_prefix (p ++ q) l = true -> is_prefix p l = true.
Proof.
  revert l. induction p as [| c p IH]; intros l; simpl; [reflexivity |].
  destruct l as [| d l]; [discriminate |].
  intros H. apply andb_true_iff in H as [Hc H]. rewrite Hc. simpl. apply IH, H.
Qed.

Lemma occurs_app_pat (p q l : list ascii) :
  occurs p l = false -> occurs (p ++ q) l = false.
Proof.
  induction l as [| c l IH]; simpl; intros H; apply orb_false_iff in H as [H1 H2];
    apply orb_false_iff; split.
  - destruct (is_prefix (p ++ q) []) eqn:E; [| reflexivity].
    apply is_prefix_app_l in E. congruence.
  - reflexivity.
  - destruct (is_prefix (p ++ q) (c :: l)) eqn:E; [| reflexivity].
    apply is_prefix_app_l in E. congruence.
  - apply IH, H2.
Qed.

Lemma is_prefix_snoc (p l : list ascii) (c : ascii) :
  is_prefix p (l ++ [c]) = true -> is_prefix p l = false -> In c p.
Proof.
  revert l. induction p as [| d p IH]; intros l; simpl; [discriminate |].
  destruct l as [| e l]; simpl.
  - intros H _. destruct p; apply andb_true_iff in H as [H _];
      apply Ascii.eqb_eq in H; left; exact H.
  - intros H1 H2. apply andb_true_iff in H1 as [Hde H1]. rewrite Hde in H2. simpl in H2.
    right. exact (IH l H1 H2).
Qed.

Lemma occurs_snoc (p l : list ascii) (c : ascii) :
  ~ In c p -> occurs p l = false -> occurs p (l ++ [c]) = false.
Proof.
  intros Hc. induction l as [| x l IH]; simpl; intros H.
  - destruct p as [| d p]; [simpl in H; discriminate |].
    simpl. destruct (Ascii.eqb d c) eqn:E; [| reflexivity].
    apply Ascii.eqb_eq in E. subst. exfalso. apply Hc. left. reflexivity.
  - apply orb_false_iff in H as [H1 H2]. apply orb_false_iff. split.
    + destruct (is_prefix p (x :: l ++ [c])) eqn:E; [| reflexivity].
      exfalso. apply Hc. exact (is_prefix_snoc p (x :: l) c E H1).
    + apply IH, H2.
Qed.

Lemma strip_with_spaces_noop (pat : list ascii) :
  forall fuel l, occurs pat l = false -> strip_with_spaces fuel pat l = l.
Proof.
  induction fuel as [| fuel IH]; intros l H; [reflexivity |].
  destruct l as [| c l]; [reflexivity |].
  simpl in H. apply orb_false_iff in H as [H1 H2].
  simpl. rewrite H1, IH by exact H2. reflexivity.
Qed.

Lemma find_last_index_snoc (c : ascii) (l : list ascii) :
  forall i, find_last_index c i (l ++ [c]) = Some (i + length l).
Proof.
  induction l as [| x l IH]; intros i; simpl.
  - rewrite Ascii.eqb_refl. f_equal. lia.
  - rewrite IH. f_equal. lia.
Qed.

(** The cleaning of a Claude reply leaves a bare object unchanged: a text
    that starts with an opening brace, ends with a closing brace and has no
    triple backtick reaches [JSON.parse] as it is. *)
Theorem claude_clean_bare_object :
  forall body : string,
    occurs backticks (list_ascii_of_string body) = false ->
    claude_clean ("{" +++ body +++ "}") = "{" +++ body +++ "}".
Proof.
  intros body Hb.
  set (l := list_ascii_of_string ("{" +++ body +++ "}")).
  assert (Hl : l = "{"%char :: list_ascii_of_string body ++ ["}"%char])
    by (unfold l; rewrite !list_ascii_of_string_app; reflexivity).
  assert (Hocc : occurs backticks l = false).
  { rewrite Hl. simpl. apply occurs_snoc; [simpl; intuition discriminate | exact Hb]. }
  unfold claude_clean. fold l.
  rewrite (strip_with_spaces_noop _ _ l) by (apply occurs_app_pat, Hocc).
  rewrite (strip_with_spaces_noop _ _ l) by exact Hocc.
  assert (Htrim : trim (string_of_list_ascii l) = string_of_list_ascii l).
  { unfold trim. rewrite list_ascii_of_string_of_list_ascii. f_equal.
    apply (clean_trim_list l). split.
    - apply trim_start_fixed. rewrite Hl. reflexivity.
    - apply trim_start_fixed. rewrite Hl. simpl. rewrite rev_app_distr. reflexivity. }
  rewrite Htrim, list_ascii_of_string_of_list_ascii.
  unfold match_braces.
  assert (Hfi : find_index "{"%char 0 l = Some 0) by (rewrite Hl; reflexivity).
  assert (Hfl : find_last_index "}"%char 0 l
                = Some (S (length (list_ascii_of_string body)))).
  { rewrite Hl. cbn [find_last_index]. rewrite find_last_index_snoc. reflexivity. }
  rewrite Hfi, Hfl. cbn [Nat.ltb Nat.leb skipn].
  rewrite firstn_all2 by (rewrite Hl; simpl; rewrite length_app; simpl; lia).
  unfold l. apply string_of_list_ascii_of_string.
Qed.

(** The remote solvers return the model's link verbatim, whatever the
    page. *)
(** *** Orchestrator *)

(** When the solver throws, the game ends in [FAILED] with the error
    [Solver Error: <message>]; no step is appended and the page is kept. *)
Theorem solver_error_fails :
  forall (s : App) (p : WikiPage) (m : string) (t0 t1 now : Z),
    status s = PLAYING ->
    currentWikiPage s = Some p ->
    String.eqb (normalizeTitle (title p)) (normalizeTitle (targetPage s)) = false ->
    length (history s) < maxSteps ->
    exists s',
      run s [ETick t0; ESolverReturns (next_id s) (Throw m) t1 now] = Some s'
      /\ status s' = FAILED
      /\ error s' = Some ("Solver Error: " +++ m)
      /\ history s' = history s
      /\ currentWikiPage s' = Some p
      /\ tasks s' = tasks s.
Proof.
  intros [sp tp sv cur h st err hl ts n] p m t0 t1 now
    Hst Hcur Hneq Hlen; simpl in Hst, Hcur, Hneq, Hlen; subst st cur.
  assert (Hleb : Nat.leb maxSteps (length h) = false) by (apply Nat.leb_gt; exact Hlen).
  unfold run, step, executeMove_start.
  cbn -[Nat.leb maxSteps normalizeTitle String.eqb lookup_task set_task drop_task].
  rewrite Hneq, Hleb. tasks_simpl.
  eexists. split; [reflexivity |]. simpl. auto.
Qed.


(** When the destination fetch fails, the game ends in [FAILED] with
    [Solver Error: <message>]; the step stays appended and the current page
    is unchanged. *)
Theorem fetch_error_fails_after_step :
  forall (s : App) (p : WikiPage) (move : AIResponse) (l m : string) (t0 t1 now : Z),
    status s = PLAYING ->
    currentWikiPage s = Some p ->
    String.eqb (normalizeTitle (title p)) (normalizeTitle (targetPage s)) = false ->
    length (history s) < maxSteps ->
    selectedLink move = JStr l ->
    exists s',
      run s [ETick t0; ESolverReturns (next_id s) (Ok move) t1 now;
             EDelayElapsed (next_id s); EFetchReturns (next_id s) (Throw m)] = Some s'
      /\ status s' = FAILED
      /\ error s' = Some ("Solver Error: " +++ m)
      /\ history s' = history s ++ [mkGameStep (title p) (reasoning move) now
                                     (t1 - t0)%Z (solver_sel s)]
      /\ currentWikiPage s' = Some p
      /\ tasks s' = tasks s.
Proof.
  intros [sp tp sv cur h st err hl ts n] p move l m t0 t1 now
    Hst Hcur Hneq Hlen Hsel; simpl in Hst, Hcur, Hneq, Hlen; subst st cur.
  assert (Hleb : Nat.leb maxSteps (length h) = false) by (apply Nat.leb_gt; exact Hlen).
  unfold run, step, executeMove_start.
  cbn -[Nat.leb maxSteps normalizeTitle String.eqb lookup_task set_task drop_task].
  rewrite Hneq, Hleb. tasks_simpl. rewrite Hsel.
  destruct (String.eqb (normalizeTitle l) (normalizeTitle tp)); tasks_simpl;
    eexists; (split; [reflexivity |]); simpl; auto.
Qed.


Lemma step_history_extends (s s' : App) (e : Event) :
  keeps_history e = true -> step s e = Some s' -> exists suf, history s' = history s ++ suf.
Proof.
  intros Hk Hs.
  destruct e; simpl in Hk; try discriminate Hk; unfold step in Hs;
    repeat match type of Hs with
           | context [match ?x with _ => _ end] => destruct x
           end;
    try discriminate Hs; injection Hs as <-;
    unfold executeMove_start, with_status, with_error, with_history, with_page,
      with_highlight, with_tasks, spawn, resume, finish, move_catch;
    repeat match goal with
           | |- context [match ?x with _ => _ end] => destruct x
           end; simpl;
    first [exists []; rewrite app_nil_r; reflexivity | eexists; reflexivity].
Qed.

(** Apart from starting and resetting, no event removes or rewrites a step:
    along any run the old history stays a prefix of the new one. *)
Theorem run_history_extends :
  forall (es : list Event) (s : App),
    forallb keeps_history es = true ->
    match run s es with
    | Some s' => exists suf, history s' = history s ++ suf
    | None => True
    end.
Proof.
  induction es as [| e es IH]; intros s Hk; simpl in Hk |- *.
  - exists []. rewrite app_nil_r. reflexivity.
  - apply andb_true_iff in Hk as [He Hk].
    destruct (step s e) as [s1 |] eqn:Hs; [| exact I].
    destruct (step_history_extends s s1 e He Hs) as [suf1 H1].
    specialize (IH s1 Hk). destruct (run s1 es) as [s' |]; [| exact I].
    destruct IH as [suf2 H2].
    exists (suf1 ++ suf2). rewrite H2, H1, app_assoc. reflexivity.
Qed.

(** Hiding the tab while a step is in flight does not pause the game (the
    auto-pause only acts in [PLAYING]): the step completes and the game
    goes on in [PLAYING]. *)
Theorem hidden_tab_does_not_stop_step :
  forall (s : App) (p : WikiPage) (move : AIResponse) (l : string)
         (q : WikiPage) (t0 t1 now : Z),
    status s = PLAYING ->
    currentWikiPage s = Some p ->
    String.eqb (normalizeTitle (title p)) (normalizeTitle (targetPage s)) = false ->
    length (history s) < maxSteps ->
    selectedLink move = JStr l ->
    String.eqb (normalizeTitle l) (normalizeTitle (targetPage s)) = false ->
    exists s',
      run s [ETick t0; EHidden; ESolverReturns (next_id s) (Ok move) t1 now;
             EDelayElapsed (next_id s); EFetchReturns (next_id s) (Ok q)] = Some s'
      /\ status s' = PLAYING
      /\ currentWikiPage s' = Some q
      /\ history s' = history s ++ [mkGameStep (title p) (reasoning move) now
                                     (t1 - t0)%Z (solver_sel s)].
Proof.
  intros [sp tp sv cur h st err hl ts n] p move l q t0 t1 now
    Hst Hcur Hneq Hlen Hsel Hl; simpl in Hst, Hcur, Hneq, Hlen, Hl; subst st cur.
  assert (Hleb : Nat.leb maxSteps (length h) = false) by (apply Nat.leb_gt; exact Hlen).
  unfold run, step, executeMove_start.
  cbn -[Nat.leb maxSteps normalizeTitle String.eqb lookup_task set_task drop_task].
  rewrite Hneq, Hleb. tasks_simpl. rewrite Hsel, Hl. tasks_simpl.
  eexists. split; [reflexivity |]. simpl. auto.
Qed.

(** Starting from [IDLE]: a successful fetch of the start page gives
    [PLAYING] on that page with an empty history and no error; a failed one
    gives [IDLE] with [Failed to start: <message>], the current page
    untouched. *)
Theorem start_game_outcomes :
  forall (s : App) (q : WikiPage) (m : string),
    status s = IDLE ->
    (exists s',
        run s [EStartClicked; EFetchReturns (next_id s) (Ok q)] = Some s'
        /\ status s' = PLAYING /\ currentWikiPage s' = Some q
        /\ history s' = [] /\ error s' = None /\ tasks s' = tasks s)
    /\ (exists s',
        run s [EStartClicked; EFetchReturns (next_id s) (Throw m)] = Some s'
        /\ status s' = IDLE /\ currentWikiPage s' = currentWikiPage s
        /\ history s' = [] /\ error s' = Some ("Failed to start: " +++ m)
        /\ tasks s' = tasks s).
Proof.
  intros [sp tp sv cur h st err hl ts n] q m Hst; simpl in Hst; subst st.
  split; unfold run, step; tasks_simpl;
    eexists; (split; [reflexivity |]); simpl; auto.
Qed.

(** A hop whose link canonically matches the target ends the game in
    [SUCCESS] on the fetched page, with the step appended; no later tick is
    enabled. *)
Theorem hop_to_target_ends_game :
  forall (s : App) (p : WikiPage) (move : AIResponse) (l : string)
         (q : WikiPage) (t0 t1 now : Z),
    status s = PLAYING ->
    currentWikiPage s = Some p ->
    String.eqb (normalizeTitle (title p)) (normalizeTitle (targetPage s)) = false ->
    length (history s) < maxSteps ->
    selectedLink move = JStr l ->
    String.eqb (normalizeTitle l) (normalizeTitle (targetPage s)) = true ->
    exists s',
      run s (hop_events (next_id s) move q t0 t1 now) = Some s'
      /\ status s' = SUCCESS
      /\ currentWikiPage s' = Some q
      /\ history s' = history s ++ [mkGameStep (title p) (reasoning move) now
                                     (t1 - t0)%Z (solver_sel s)]
      /\ tasks s' = tasks s
      /\ forall t, step s' (ETick t) = None.
Proof.
  intros s p move l q t0 t1 now Hst Hcur Hneq Hlen Hsel Hl.
  rewrite (hop_run s p move l q t0 t1 now Hst Hcur Hneq Hlen Hsel), Hl.
  eexists. split; [reflexivity |]. simpl. auto 6.
Qed.

(** Reset does not cancel a step in flight: when the solver answers after
    the reset, the step is appended to the cleared history, its destination
    becomes current and the game is back in [PLAYING]. *)
Theorem reset_mid_step_resumes :
  forall (s : App) (p : WikiPage) (move : AIResponse) (l : string)
         (q : WikiPage) (t0 t1 now : Z),
    status s = PLAYING ->
    currentWikiPage s = Some p ->
    String.eqb (normalizeTitle (title p)) (normalizeTitle (targetPage s)) = false ->
    length (history s) < maxSteps ->
    selectedLink move = JStr l ->
    String.eqb (normalizeTitle l) (normalizeTitle (targetPage s)) = false ->
    exists s',
      run s [ETick t0; EReset; ESolverReturns (next_id s) (Ok move) t1 now;
             EDelayElapsed (next_id s); EFetchReturns (next_id s) (Ok q)] = Some s'
      /\ status s' = PLAYING
      /\ currentWikiPage s' = Some q
      /\ history s' = [mkGameStep (title p) (reasoning move) now
                         (t1 - t0)%Z (solver_sel s)].
Proof.
  intros s p move l q t0 t1 now Hst Hcur Hneq Hlen Hsel Hl.
  rewrite (run_cons_some _ _ _ _ (tick_spawns s p t0 Hst Hcur Hneq Hlen)).
  destruct s as [sp tp sv cur h st err hl ts n]; cbn [targetPage] in Hl.
  erewrite run_cons_some by reflexivity.
  erewrite run_cons_some by (apply solver_step; apply lookup_task_head).
  erewrite run_cons_some
    by (apply (delay_step_next _ n (mkClosure p tp sv) move l);
        [cbn [tasks resume with_tasks with_history with_highlight with_error with_page with_status spawn]; rewrite set_task_head;
         apply lookup_task_head
        | exact Hsel | exact Hl | reflexivity]).
  erewrite run_cons_some
    by (apply fetch_step_next with (cl := mkClosure p tp sv) (l := l);
        cbn [tasks resume with_tasks with_history with_highlight with_error with_page with_status spawn]; rewrite !set_task_head;
        apply lookup_task_head).
  eexists. split; [reflexivity |]. split; [reflexivity |]. split; [reflexivity |].
  reflexivity.
Qed.

(** A [FAILED] game below the budget can be resumed: pressing the toggle
    twice and the next tick start a new solver call from the same page and
    history, with the old error message still shown. *)
Theorem failed_game_resumable :
  forall (s : App) (p : WikiPage) (now : Z),
    status s = FAILED ->
    currentWikiPage s = Some p ->
    String.eqb (normalizeTitle (title p)) (normalizeTitle (targetPage s)) = false ->
    length (history s) < maxSteps ->
    exists s',
      run s [ETogglePause; ETogglePause; ETick now] = Some s'
      /\ status s' = LOADING_STEP
      /\ lookup_task (next_id s) (tasks s')
         = Some (MoveAwaitSolver (mkClosure p (targetPage s) (solver_sel s)) now)
      /\ history s' = history s
      /\ error s' = error s.
Proof.
  intros s p now Hst Hcur Hneq Hlen.
  erewrite run_cons_some by (unfold step; rewrite Hst; reflexivity).
  erewrite run_cons_some by reflexivity.
  erewrite run_cons_some
    by (eapply tick_spawns; [reflexivity | exact Hcur | exact Hneq | exact Hlen]).
  eexists. split; [reflexivity |].
  cbn [status tasks history error next_id spawn with_status].
  rewrite lookup_task_head. auto.
Qed.

(** *** Model loader *)

Lemma count_loading_cons (j : nat) (c : LoadCall) (cs : list (nat * LoadCall)) :
  count_loading ((j, c) :: cs) = loading_call c + count_loading cs.
Proof. unfold count_loading. simpl. destruct c; reflexivity. Qed.

Lemma count_loading_set (id : nat) (c c' : LoadCall) (cs : list (nat * LoadCall)) :
  lookup_call id cs = Some c ->
  count_loading (set_call id c' cs) + loading_call c = count_loading cs + loading_call c'.
Proof.
  induction cs as [| [j d] cs IH]; simpl; [discriminate |].
  destruct (Nat.eqb id j).
  - intros H. injection H as <-. rewrite !count_loading_cons. lia.
  - intros H. rewrite !count_loading_cons. specialize (IH H). lia.
Qed.

Lemma lookup_loading_count (id : nat) (cs : list (nat * LoadCall)) :
  lookup_call id cs = Some LCLoading -> 1 <= count_loading cs.
Proof.
  intros H. pose proof (count_loading_set id LCLoading LCWaiting cs H) as E.
  simpl in E. lia.
Qed.

Lemma lookup_set_call_same (id : nat) (c c' : LoadCall) (cs : list (nat * LoadCall)) :
  lookup_call id cs = Some c -> lookup_call id (set_call id c' cs) = Some c'.
Proof.
  induction cs as [| [j d] cs IH]; simpl; [discriminate |].
  destruct (Nat.eqb id j) eqn:E; simpl; rewrite E; [reflexivity | exact IH].
Qed.

Lemma lookup_set_call_other (i j : nat) (c : LoadCall) (cs : list (nat * LoadCall)) :
  i <> j -> lookup_call j (set_call i c cs) = lookup_call j cs.
Proof.
  intros Hij. induction cs as [| [k d] cs IH]; simpl; [reflexivity |].
  destruct (Nat.eqb i k) eqn:Eik; simpl.
  - apply Nat.eqb_eq in Eik. subst k.
    destruct (Nat.eqb j i) eqn:Eji; [apply Nat.eqb_eq in Eji; congruence | reflexivity].
  - rewrite IH. reflexivity.
Qed.

Lemma loader_inv_init : loader_inv loader_init.
Proof. split; [reflexivity | intros H; reflexivity]. Qed.

Lemma loader_inv_step (ld ld' : Loader) (e : LoaderEvent) :
  loader_inv ld -> loader_step ld e = Some ld' -> loader_inv ld'.
Proof.
  intros [Hc Hx] Hs. destruct ld as [x il cs n]; simpl in Hc, Hx.
  destruct e as [| id | id r]; simpl in Hs.
  - destruct x as [m |].
    + injection Hs as <-. unfold add_call. split; simpl.
      * rewrite count_loading_cons. simpl. exact Hc.
      * intros _. apply Hx. discriminate.
    + destruct il; injection Hs as <-; unfold add_call; split; simpl;
        try (intros H; exfalso; apply H; reflexivity);
        rewrite count_loading_cons; simpl; rewrite Hc; reflexivity.
  - destruct (lookup_call id cs) as [[| | r] |] eqn:Hl; try discriminate Hs.
    destruct il; injection Hs as <-; [split; assumption |].
    pose proof (count_loading_set id LCWaiting (LCReturned (Ok x)) cs Hl) as E.
    split; simpl; [simpl in E; lia | exact Hx].
  - destruct (lookup_call id cs) as [[| | r'] |] eqn:Hl; try discriminate Hs.
    pose proof (lookup_loading_count id cs Hl) as H1.
    assert (Hil : il = true) by (destruct il; [reflexivity | lia]). subst il.
    destruct r as [m | msg]; injection Hs as <-;
      [pose proof (count_loading_set id LCLoading (LCReturned (Ok (Some m))) cs Hl) as E
      | pose proof (count_loading_set id LCLoading (LCReturned (Throw msg)) cs Hl) as E];
      (split; simpl; [simpl in E; lia | reflexivity]).
Qed.

Lemma loader_inv_run (es : list LoaderEvent) :
  forall ld ld', loader_inv ld -> loader_run ld es = Some ld' -> loader_inv ld'.
Proof.
  induction es as [| e es IH]; intros ld ld' Hi Hr; simpl in Hr.
  - injection Hr as <-. exact Hi.
  - destruct (loader_step ld e) as [ld1 |] eqn:Hs; [| discriminate].
    exact (IH ld1 ld' (loader_inv_step ld ld1 e Hi Hs) Hr).
Qed.

(** In every interleaving of [loadModel] calls, at most one call awaits the
    pipeline, and [isLoading] is true exactly while one does. *)
Theorem loadModel_single_pipeline :
  forall (es : list LoaderEvent) (ld : Loader),
    loader_run loader_init es = Some ld ->
    count_loading (calls ld) <= 1
    /\ (isLoading ld = true <-> count_loading (calls ld) = 1).
Proof.
  intros es ld Hr. destruct (loader_inv_run es loader_init ld loader_inv_init Hr) as [Hc _].
  rewrite Hc. destruct (isLoading ld); split; try lia; split; congruence.
Qed.

Lemma loaded_step (ld ld' : Loader) (e : LoaderEvent) (m : Extractor) :
  loader_inv ld -> extractor ld = Some m -> loader_step ld e = Some ld' ->
  extractor ld' = Some m.
Proof.
  intros [Hc Hx] Hm Hs. destruct ld as [x il cs n]; simpl in Hc, Hx, Hm. subst x.
  assert (Hil : il = false) by (apply Hx; discriminate). subst il.
  destruct e as [| id | id r]; simpl in Hs.
  - injection Hs as <-. reflexivity.
  - destruct (lookup_call id cs) as [[| | r] |]; try discriminate Hs.
    injection Hs as <-. reflexivity.
  - destruct (lookup_call id cs) as [[| | r'] |] eqn:Hl; try discriminate Hs.
    pose proof (lookup_loading_count id cs Hl). lia.
Qed.

(** Once the model is loaded it stays the same, and no further pipeline
    load is ever in flight. *)
Theorem loadModel_loaded_is_final :
  forall (es1 es2 : list LoaderEvent) (ld ld' : Loader) (m : Extractor),
    loader_run loader_init es1 = Some ld ->
    extractor ld = Some m ->
    loader_run ld es2 = Some ld' ->
    extractor ld' = Some m /\ isLoading ld' = false /\ count_loading (calls ld') = 0.
Proof.
  intros es1 es2 ld ld' m H1 Hm H2.
  pose proof (loader_inv_run es1 loader_init ld loader_inv_init H1) as Hi.
  assert (Hm' : extractor ld' = Some m).
  { clear H1. revert ld Hi Hm H2. induction es2 as [| e es IH]; intros ld Hi Hm H2;
      simpl in H2.
    - injection H2 as <-. exact Hm.
    - destruct (loader_step ld e) as [ld1 |] eqn:Hs; [| discriminate].
      apply (IH ld1 (loader_inv_step ld ld1 e Hi Hs) (loaded_step ld ld1 e m Hi Hm Hs) H2). }
  destruct (loader_inv_run es2 ld ld' Hi H2) as [Hc Hx].
  assert (Hil : isLoading ld' = false) by (apply Hx; rewrite Hm'; discriminate).
  rewrite Hil in Hc. auto.
Qed.

(** A call waiting in the polling loop while the pipeline load fails
    returns [null] (the failure is thrown only to the loading call). *)
Theorem loadModel_waiter_gets_null :
  forall (es : list LoaderEvent) (ld : Loader) (i j : nat) (msg : string),
    loader_run loader_init es = Some ld ->
    lookup_call i (calls ld) = Some LCLoading ->
    lookup_call j (calls ld) = Some LCWaiting ->
    exists ld',
      loader_run ld [LPipelineReturns i (Throw msg); LTimer j] = Some ld'
      /\ lookup_call i (calls ld') = Some (LCReturned (Throw msg))
      /\ lookup_call j (calls ld') = Some (LCReturned (Ok None)).
Proof.
  intros es [x il cs n] i j msg Hr Hi Hj; simpl in Hi, Hj.
  destruct (loader_inv_run es loader_init _ loader_inv_init Hr) as [Hc Hx]; simpl in Hc, Hx.
  pose proof (lookup_loading_count i cs Hi) as H1.
  assert (Hil : il = true) by (destruct il; [reflexivity | lia]). subst il.
  assert (Hx0 : x = None) by (destruct x; [discriminate (Hx ltac:(discriminate)) | reflexivity]).
  subst x.
  assert (Hij : i <> j) by (intros ->; congruence).
  simpl. rewrite Hi. simpl.
  rewrite (lookup_set_call_other i j _ cs Hij), Hj.
  eexists. split; [reflexivity |]. simpl. split.
  - rewrite lookup_set_call_other by congruence.
    apply (lookup_set_call_same i LCLoading). exact Hi.
  - apply (lookup_set_call_same j LCWaiting).
    rewrite lookup_set_call_other by exact Hij. exact Hj.
Qed.

(** *** Page HTML rewriting *)

Lemma clash_prefix (p s t : list ascii) : clash p s = true -> is_prefix p (s ++ t) = false.
Proof.
  revert s. induction p as [| c p IH]; intros s; simpl; [discriminate |].
  destruct s as [| d s]; simpl; [discriminate |].
  destruct (Ascii.eqb c d); simpl; [apply IH | reflexivity].
Qed.

Lemma replace_from_skip (pat rep : list ascii) (l : list ascii) :
  forall k, replace_from pat rep k l = replace_from pat rep 0 (skipn k l).
Proof.
  induction l as [| c l IH]; intros k.
  - destruct k; reflexivity.
  - destruct k as [| k]; [reflexivity |]. simpl. apply IH.
Qed.

Lemma replace_prefix_back (pat rep q : list ascii) :
  suffixes_ok (fun v => clash v rep) q = true ->
  forall l, is_prefix q (replace_from pat rep 0 l) = true -> is_prefix q l = true.
Proof.
  induction q as [| x q IH]; intros Hq l H; [reflexivity |].
  simpl in Hq. apply andb_true_iff in Hq as [Hx Hq].
  destruct l as [| c l]; [discriminate H |].
  cbn [replace_from] in H. destruct (is_prefix pat (c :: l)).
  - rewrite clash_prefix in H by exact Hx. discriminate H.
  - cbn [is_prefix] in H |- *. apply andb_true_iff in H as [Hxc H]. rewrite Hxc.
    simpl. apply (IH Hq l H).
Qed.

Lemma occurs_block (p rep t : list ascii) :
  suffixes_ok (clash p) rep = true -> occurs p t = false -> occurs p (rep ++ t) = false.
Proof.
  induction rep as [| r rep IH]; intros Hr Ht; [exact Ht |].
  simpl in Hr. apply andb_true_iff in Hr as [Hc Hr].
  change (occurs p ((r :: rep) ++ t))
    with (is_prefix p ((r :: rep) ++ t) || occurs p (rep ++ t)).
  rewrite (clash_prefix p (r :: rep) t Hc). simpl. apply IH; assumption.
Qed.

Lemma occurs_skipn (p l : list ascii) :
  forall k, occurs p l = false -> occurs p (skipn k l) = false.
Proof.
  induction l as [| c l IH]; intros k H; destruct k as [| k]; try exact H.
  simpl in H |- *. apply orb_false_iff in H as [_ H]. apply IH, H.
Qed.

(** A global replacement leaves no occurrence of [p] when [p] is its own
    pattern or was absent, provided the replacement text cannot start or
    complete an occurrence. *)
Lemma replace_no_occurrence (pat rep p' : list ascii) (p0 : ascii) :
  suffixes_ok (clash (p0 :: p')) rep = true ->
  suffixes_ok (fun v => clash v rep) p' = true ->
  forall l, (pat = p0 :: p' \/ occurs (p0 :: p') l = false) ->
  occurs (p0 :: p') (replace_from pat rep 0 l) = false.
Proof.
  intros Hr Hp.
  assert (G : forall n l, length l <= n -> (pat = p0 :: p' \/ occurs (p0 :: p') l = false) ->
              occurs (p0 :: p') (replace_from pat rep 0 l) = false).
  { induction n as [| n IH]; intros l Hlen Hl.
    - destruct l; [reflexivity | simpl in Hlen; lia].
    - destruct l as [| c l]; [reflexivity |]. simpl in Hlen.
      assert (Htail : pat = p0 :: p' \/ occurs (p0 :: p') l = false).
      { destruct Hl as [Hl | Hl]; [left; exact Hl | right].
        simpl in Hl. apply orb_false_iff in Hl as [_ Hl]. exact Hl. }
      cbn [replace_from]. destruct (is_prefix pat (c :: l)) eqn:Hm.
      + rewrite replace_from_skip. apply occurs_block; [exact Hr |].
        apply IH; [rewrite length_skipn; lia |].
        destruct Htail as [Ht | Ht]; [left; exact Ht | right; apply occurs_skipn, Ht].
      + assert (Hc : is_prefix (p0 :: p') (c :: l) = false).
        { destruct Hl as [Hl | Hl]; [rewrite <- Hl; exact Hm |].
          simpl in Hl |- *. apply orb_false_iff in Hl as [Hl _]. exact Hl. }
        change (occurs (p0 :: p') (c :: replace_from pat rep 0 l))
          with (is_prefix (p0 :: p') (c :: replace_from pat rep 0 l)
                || occurs (p0 :: p') (replace_from pat rep 0 l)).
        apply orb_false_iff. split; [| apply IH; [lia | exact Htail]].
        simpl in Hc |- *.
        destruct (Ascii.eqb p0 c); simpl in Hc |- *; [| reflexivity].
        destruct (is_prefix p' (replace_from pat rep 0 l)) eqn:E; [| reflexivity].
        rewrite (replace_prefix_back pat rep p' Hp l E) in Hc. discriminate Hc. }
  intros l. apply (G (length l) l). lia.
Qed.

(** After the HTML rewrites of [fetchPageData], the page HTML contains no
    root-relative link: the attribute [href], an equals sign, a double quote
    and a slash never occur in a row, since the replacement text can
    neither start nor complete such an occurrence. *)
Theorem rewrite_html_no_relative_href :
  forall htmlContent : string,
    occurs (list_ascii_of_string ("href=" +++ dq +++ "/"))
      (list_ascii_of_string (rewrite_html htmlContent)) = false.
Proof.
  intros html. unfold rewrite_html, js_replace_all.
  rewrite !list_ascii_of_string_of_list_ascii.
  apply replace_no_occurrence; [vm_compute; reflexivity | vm_compute; reflexivity |].
  right. apply replace_no_occurrence; [vm_compute; reflexivity | vm_compute; reflexivity |].
  left. reflexivity.
Qed.

(** *** Witnesses *)

Lemma filter_links_never_current_witness :
  toLowerCase "C" <> toLowerCase (title (page_of "A" ["B"; "a"; "C"])).
Proof.
  apply (filter_links_never_current (page_of "A" ["B"; "a"; "C"]) ["b"] "C").
  simpl. left. reflexivity.
Defined.

Lemma vector_link_on_page_or_main_witness :
  exists l, selectedLink (mkAIResponse (JStr "No valid links found.") (JStr "Main_Page"))
            = JStr l /\ (In l (links (page_of "A" [])) \/ l = "Main_Page").
Proof.
  apply (vector_link_on_page_or_main fixed3_stub (Ok (Some nan_extractor))
           (page_of "A" []) "Z" []).
  reflexivity.
Defined.

Lemma vector_prefers_unvisited_witness :
  exists r l,
    snd (vector_getNextMove fixed3_stub (Ok (Some nan_extractor))
           (page_of "A" ["B"; "C"]) "Z" ["B"]) = Ok r
    /\ selectedLink r = JStr l
    /\ In l (links (page_of "A" ["B"; "C"]))
    /\ ~ In (toLowerCase l)
           (map toLowerCase ["B"] ++ [toLowerCase (title (page_of "A" ["B"; "C"]))]).
Proof.
  apply vector_prefers_unvisited; reflexivity.
Defined.

Lemma claude_clean_bare_object_witness :
  claude_clean ("{" +++ "x" +++ "}") = "{" +++ "x" +++ "}".
Proof.
  apply claude_clean_bare_object. reflexivity.
Defined.

Lemma solver_error_fails_witness :
  exists s',
    run (app_at (page_of "A" ["B"]) "Cheese") [ETick 0; ESolverReturns 0 (Throw "quota") 1 1]
      = Some s'
    /\ status s' = FAILED
    /\ error s' = Some ("Solver Error: " +++ "quota")
    /\ history s' = []
    /\ currentWikiPage s' = Some (page_of "A" ["B"])
    /\ tasks s' = [].
Proof.
  apply (solver_error_fails (app_at (page_of "A" ["B"]) "Cheese") (page_of "A" ["B"]));
    first [reflexivity | unfold maxSteps; simpl; lia].
Defined.


Lemma fetch_error_fails_after_step_witness :
  exists s',
    run (app_at (page_of "A" ["B"]) "Cheese")
      [ETick 0; ESolverReturns 0 (Ok (answer "B")) 1 1; EDelayElapsed 0;
       EFetchReturns 0 (Throw "404")] = Some s'
    /\ status s' = FAILED
    /\ error s' = Some ("Solver Error: " +++ "404")
    /\ history s' = [] ++ [mkGameStep "A" (JStr "because") 1 (1 - 0)%Z GEMINI]
    /\ currentWikiPage s' = Some (page_of "A" ["B"])
    /\ tasks s' = [].
Proof.
  apply (fetch_error_fails_after_step (app_at (page_of "A" ["B"]) "Cheese") (page_of "A" ["B"])
           (answer "B") "B");
    first [reflexivity | unfold maxSteps; simpl; lia].
Defined.

Lemma run_history_extends_witness :
  match run (app_at (page_of "A" ["B"]) "Cheese")
          (hop_events 0 (answer "B") (page_of "B" []) 0 0 0) with
  | Some s' => exists suf, history s' = history (app_at (page_of "A" ["B"]) "Cheese") ++ suf
  | None => True
  end.
Proof.
  apply run_history_extends. reflexivity.
Defined.

Lemma hidden_tab_does_not_stop_step_witness :
  exists s',
    run (app_at (page_of "A" ["B"]) "Cheese")
      [ETick 0; EHidden; ESolverReturns 0 (Ok (answer "B")) 1 1;
       EDelayElapsed 0; EFetchReturns 0 (Ok (page_of "B" []))] = Some s'
    /\ status s' = PLAYING
    /\ currentWikiPage s' = Some (page_of "B" [])
    /\ history s' = [] ++ [mkGameStep "A" (JStr "because") 1 (1 - 0)%Z GEMINI].
Proof.
  apply (hidden_tab_does_not_stop_step (app_at (page_of "A" ["B"]) "Cheese")
           (page_of "A" ["B"]) (answer "B") "B");
    first [reflexivity | unfold maxSteps; simpl; lia].
Defined.

Lemma start_game_outcomes_witness :
  (exists s',
      run app_init [EStartClicked; EFetchReturns 0 (Ok page_apollo)] = Some s'
      /\ status s' = PLAYING /\ currentWikiPage s' = Some page_apollo
      /\ history s' = [] /\ error s' = None /\ tasks s' = [])
  /\ (exists s',
      run app_init [EStartClicked; EFetchReturns 0 (Throw "offline")] = Some s'
      /\ status s' = IDLE /\ currentWikiPage s' = None
      /\ history s' = [] /\ error s' = Some ("Failed to start: " +++ "offline")
      /\ tasks s' = []).
Proof.
  apply (start_game_outcomes app_init page_apollo "offline"). reflexivity.
Defined.

Lemma hop_to_target_ends_game_witness :
  exists s',
    run (app_at (page_of "A" ["Cheese"]) "Cheese")
      (hop_events 0 (answer "Cheese") (page_of "Cheese" []) 0 1 1) = Some s'
    /\ status s' = SUCCESS
    /\ currentWikiPage s' = Some (page_of "Cheese" [])
    /\ history s' = [] ++ [mkGameStep "A" (JStr "because") 1 (1 - 0)%Z GEMINI]
    /\ tasks s' = []
    /\ forall t, step s' (ETick t) = None.
Proof.
  apply (hop_to_target_ends_game (app_at (page_of "A" ["Cheese"]) "Cheese")
           (page_of "A" ["Cheese"]) (answer "Cheese") "Cheese");
    first [reflexivity | unfold maxSteps; simpl; lia].
Defined.

Lemma reset_mid_step_resumes_witness :
  exists s',
    run (app_at (page_of "A" ["B"]) "Cheese")
      [ETick 0; EReset; ESolverReturns 0 (Ok (answer "B")) 1 1;
       EDelayElapsed 0; EFetchReturns 0 (Ok (page_of "B" []))] = Some s'
    /\ status s' = PLAYING
    /\ currentWikiPage s' = Some (page_of "B" [])
    /\ history s' = [mkGameStep "A" (JStr "because") 1 (1 - 0)%Z GEMINI].
Proof.
  apply (reset_mid_step_resumes (app_at (page_of "A" ["B"]) "Cheese")
           (page_of "A" ["B"]) (answer "B") "B");
    first [reflexivity | unfold maxSteps; simpl; lia].
Defined.

Definition app_failed : App :=
  mkApp "A" "Cheese" GEMINI (Some (page_of "A" ["B"])) [] FAILED
    (Some "Solver Error: quota") None [] 0.

Lemma failed_game_resumable_witness :
  exists s',
    run app_failed [ETogglePause; ETogglePause; ETick 0] = Some s'
    /\ status s' = LOADING_STEP
    /\ lookup_task 0 (tasks s')
       = Some (MoveAwaitSolver (mkClosure (page_of "A" ["B"]) "Cheese" GEMINI) 0)
    /\ history s' = []
    /\ error s' = Some "Solver Error: quota".
Proof.
  apply (failed_game_resumable app_failed (page_of "A" ["B"]));
    first [reflexivity | unfold maxSteps; simpl; lia].
Defined.

Definition loader_two_calls : Loader :=
  mkLoader None true [(1, LCWaiting); (0, LCLoading)] 2.

Lemma loadModel_single_pipeline_witness :
  count_loading (calls loader_two_calls) <= 1
  /\ (isLoading loader_two_calls = true <-> count_loading (calls loader_two_calls) = 1).
Proof.
  apply (loadModel_single_pipeline [LCall; LCall]). reflexivity.
Defined.

Lemma loadModel_loaded_is_final_witness :
  let ld := mkLoader (Some toy_extractor) false
              [(0, LCReturned (Ok (Some toy_extractor)))] 1 in
  let ld' := mkLoader (Some toy_extractor) false
               [(1, LCReturned (Ok (Some toy_extractor)));
                (0, LCReturned (Ok (Some toy_extractor)))] 2 in
  extractor ld' = Some toy_extractor /\ isLoading ld' = false
  /\ count_loading (calls ld') = 0.
Proof.
  intros ld ld'.
  apply (loadModel_loaded_is_final [LCall; LPipelineReturns 0 (Ok toy_extractor)] [LCall]
           ld ld' toy_extractor); reflexivity.
Defined.

Lemma loadModel_waiter_gets_null_witness :
  exists ld',
    loader_run loader_two_calls [LPipelineReturns 0 (Throw "offline"); LTimer 1] = Some ld'
    /\ lookup_call 0 (calls ld') = Some (LCReturned (Throw "offline"))
    /\ lookup_call 1 (calls ld') = Some (LCReturned (Ok None)).
Proof.
  apply (loadModel_waiter_gets_null [LCall; LCall]); reflexivity.
Defined.
